(** * node-github-repositories-cloner: a shallow embedding of [index.js]

    The script lists the public repositories of a GitHub user through a
    paginated HTTP endpoint and mirrors each of them (optionally every
    branch) to disk with shallow clones.  Everything it does is sequential
    I/O, so the embedding is a state-and-exception monad over a [World]
    holding the filesystem and the history of external calls; the remote
    side (HTTP API, git, the operating system) is an [Env] of oracles that
    answer each call from the length of the history so far and the request.

    What the model takes for granted:
    - the disk is the set of existing paths; [fs.existsSync] reads it;
      [fs.mkdirSync] may throw; [fs.rmSync] with [recursive] and [force]
      removes a path and all that lies below it, does nothing on a missing
      path, and may throw on a path that is there (a busy or protected
      file), in which case it is taken to have removed nothing;
    - [git.clone] either checks out the entries the oracle names, creating
      the target and its ancestors, or throws, leaving the target behind or
      not; the submodule commands touch the history only;
    - [path.join] is applied to a directory and a repository or branch
      name, where it amounts to joining with a slash;
    - loops get a fuel; running out of it is the outcome [Diverge], which
      the bounded loops are proved never to produce;
    - console output is left out (the script never reads it back), and a
      [delay] is only recorded in the history. *)

From Stdlib Require Import String Ascii.
From stdpp Require Import base decidable list strings gmap.

Open Scope string_scope.
Open Scope nat_scope.

(** ** Data model *)

(** Repository descriptor of the listing API, [{ name, fork }]. *)
Record Repository := mkRepo { name : string; fork : bool }.

(** Branch descriptor of the branches API, [{ name }]. *)
Record BranchInfo := mkBranch { branch_name : string }.

(** What [cloneRepo] returns. Counters are JavaScript numbers that only
    ever count up from 0 by 1, hence [nat]. *)
Record CloneResult := mkResult {
  success : bool;
  successfulBranches : nat;
  failedBranches : nat
}.

(** What [cloneRootRepo] returns, [{ success }]. *)
Record RootResult := mkRootResult { root_success : bool }.

(** The four run-level counters of the orchestrator. *)
Record Totals := mkTotals {
  totalSuccessfulRepos : nat;
  totalFailedRepos : nat;
  totalSuccessfulBranches : nat;
  totalFailedBranches : nat
}.

Definition set_repos (ok failed : nat) (t : Totals) : Totals :=
  mkTotals ok failed (totalSuccessfulBranches t) (totalFailedBranches t).

Definition set_branches (ok failed : nat) (t : Totals) : Totals :=
  mkTotals (totalSuccessfulRepos t) (totalFailedRepos t) ok failed.

(** A thrown JavaScript error.  [status] is [error.response?.status]. *)
Inductive Error :=
| HttpError (status : option nat)
| GitError
| FsError.

Definition status_of (e : Error) : option nat :=
  match e with
  | HttpError s => s
  | _ => None
  end.

(** External calls and delays, in the order they happen. *)
Inductive Event :=
| EvGetRepos (username : string) (page : nat)
| EvGetBranches (username repoName : string)
| EvClone (url path : string) (args : list string)
| EvSubmoduleInit (path : string)
| EvSubmoduleUpdate (path : string) (args : list string)
| EvMkdir (path : string)
| EvRm (path : string)
| EvDelay (ms : nat).

(** Outcome of [git.clone]: the tree was checked out with these top-level
    entries, or the command failed, possibly leaving a directory behind. *)
Inductive CloneOutcome :=
| Cloned (entries : list string)
| CloneFailed (leftover : bool).

(** The remote side and the process environment. The first argument of an
    oracle is the number of events that happened before the call. *)
Record Env := mkEnv {
  GITHUB_TOKEN : option string;
  dirname : string;
  listing_api : nat -> string -> nat -> Error + list Repository;
  branches_api : nat -> string -> string -> Error + list BranchInfo;
  git_clone : nat -> string -> string -> list string -> CloneOutcome;
  git_submodule : nat -> string -> bool;
  mkdir_ok : nat -> string -> bool;
  rm_ok : nat -> string -> bool
}.

(** The filesystem is the set of paths that exist; [trace] is the history,
    most recent event last. *)
Record World := mkWorld {
  fs : gset string;
  trace : list Event
}.

Definition now (w : World) : nat := length (trace w).

Definition log_event (e : Event) (w : World) : World :=
  mkWorld (fs w) (trace w ++ [e]).

Definition set_fs (f : gset string) (w : World) : World :=
  mkWorld f (trace w).

(** ** The monad: state, exceptions, process exit, and fuel *)

Inductive Outcome (A : Type) :=
| Val (a : A)
| Throw (e : Error)
| Exit (code : nat)
| Diverge.

Arguments Val {A} a.
Arguments Throw {A} e.
Arguments Exit {A} code.
Arguments Diverge {A}.

Definition M (A : Type) : Type := World -> Outcome A * World.

Definition ret {A} (a : A) : M A := fun w => (Val a, w).

Definition bind {A B} (m : M A) (k : A -> M B) : M B :=
  fun w =>
    match m w with
    | (Val a, w') => k a w'
    | (Throw e, w') => (Throw e, w')
    | (Exit c, w') => (Exit c, w')
    | (Diverge, w') => (Diverge, w')
    end.

(** [process.exit(code)]: no [catch] sees it. *)
Definition process_exit {A} (code : nat) : M A := fun w => (Exit code, w).

Definition diverge {A} : M A := fun w => (Diverge, w).

(** [try { m } catch (error) { h error }] *)
Definition try_catch {A} (m : M A) (h : Error -> M A) : M A :=
  fun w =>
    match m w with
    | (Throw e, w') => h e w'
    | r => r
    end.

Declare Scope js_scope.
Delimit Scope js_scope with js.
Notation "x <- c1 ;; c2" := (bind c1 (fun x => c2))
  (at level 100, c1 at next level, right associativity) : js_scope.
Notation "c1 ;;; c2" := (bind c1 (fun _ => c2))
  (at level 100, right associativity) : js_scope.
Open Scope js_scope.

(** How the body of a loop iteration ends: it goes on to the next iteration
    ([Continue]), leaves the loop ([Break]), both with the updated local
    variables, or leaves the function ([Return]). *)
Inductive Ctl (S R : Type) :=
| Continue (s : S)
| Break (s : S)
| Return (v : R).

Arguments Continue {S R} s.
Arguments Break {S R} s.
Arguments Return {S R} v.

(** ** JavaScript string operations *)

(** [s.replace(pat, rep)] with a string pattern: only the first occurrence
    is replaced ([rep] holds no [$] pattern at the call site). *)
Definition js_replace (pat rep s : string) : string :=
  match index 0 pat s with
  | Some i =>
      substring 0 i s ++ rep
        ++ substring (i + String.length pat)
             (String.length s - (i + String.length pat)) s
  | None => s
  end.

(** Number of occurrences of a character. *)
Fixpoint count_char (c : ascii) (s : string) : nat :=
  match s with
  | EmptyString => 0
  | String d s' => (if Ascii.eqb c d then 1 else 0) + count_char c s'
  end.

(** ** Filesystem and external calls *)

(** [path.join(a, b)] on segments that need no normalisation (a directory
    path and a repository or branch name). *)
Definition path_join (a b : string) : string := a ++ "/" ++ b.

(** [k] lies strictly below directory [p]. *)
Definition is_under (p k : string) : bool := String.prefix (p ++ "/") k.

(** The proper ancestors of a path, outermost first. *)
Fixpoint ancestors_from (acc s : string) : list string :=
  match s with
  | EmptyString => []
  | String c s' =>
      if Ascii.eqb c "/"
      then (if String.eqb acc "" then [] else [acc])
             ++ ancestors_from (acc ++ "/") s'
      else ancestors_from (acc ++ String c EmptyString) s'
  end.

Definition ancestors (p : string) : list string := ancestors_from "" p.

Definition with_dir (p : string) (f : gset string) : gset string :=
  {[p]} ∪ list_to_set (ancestors p) ∪ f.

Definition remove_tree (p : string) (f : gset string) : gset string :=
  filter (λ k, k ≠ p ∧ ¬ is_under p k) f.

(** Name of [k] as a direct child of [p], if it is one. *)
Definition child_name (p k : string) : option string :=
  if is_under p k then
    let rest := substring (String.length p + 1)
                  (String.length k - (String.length p + 1)) k in
    match index 0 "/" rest with
    | None => Some rest
    | Some _ => None
    end
  else None.

(** Names of the entries of directory [p]. *)
Definition listing (p : string) (f : gset string) : list string :=
  omap (child_name p) (elements f).

(** The disk after a clone checked out [entries] into [path]. *)
Definition checkout (path : string) (entries : list string)
    (f : gset string) : gset string :=
  list_to_set (map (path_join path) entries) ∪ with_dir path f.

Definition existsSync (p : string) : M bool :=
  fun w => (Val (bool_decide (p ∈ fs w)), w).

Section Program.

Variable E : Env.

(** [fs.mkdirSync(p, { recursive: true })] *)
Definition mkdirSync (p : string) : M unit :=
  fun w =>
    let w' := log_event (EvMkdir p) w in
    if mkdir_ok E (now w) p
    then (Val tt, set_fs (with_dir p (fs w)) w')
    else (Throw FsError, w').

(** [fs.readdirSync(p)] *)
Definition readdirSync (p : string) : M (list string) :=
  fun w =>
    if bool_decide (p ∈ fs w)
    then (Val (listing p (fs w)), w)
    else (Throw FsError, w).

(** [fs.rmSync(p, { recursive: true, force: true })]: with [force] a
    missing path is no error; a path that is there may refuse to go. *)
Definition rmSync (p : string) : M unit :=
  fun w =>
    let w' := log_event (EvRm p) w in
    if bool_decide (p ∈ fs w) && negb (rm_ok E (now w) p)
    then (Throw FsError, w')
    else (Val tt, set_fs (remove_tree p (fs w)) w').

(** [delay(ms)] *)
Definition delay (ms : nat) : M unit :=
  fun w => (Val tt, log_event (EvDelay ms) w).

(** [axios.get] on the repository listing endpoint; yields [response.data]. *)
Definition axios_get_repos (username : string) (page : nat)
  : M (list Repository) :=
  fun w =>
    let w' := log_event (EvGetRepos username page) w in
    match listing_api E (now w) username page with
    | inr data => (Val data, w')
    | inl err => (Throw err, w')
    end.

(** [axios.get] on the branches endpoint; yields [response.data]. *)
Definition axios_get_branches (username repoName : string)
  : M (list BranchInfo) :=
  fun w =>
    let w' := log_event (EvGetBranches username repoName) w in
    match branches_api E (now w) username repoName with
    | inr data => (Val data, w')
    | inl err => (Throw err, w')
    end.

(** [git.clone(url, path, args)] *)
Definition git_clone_into (url path : string) (args : list string) : M unit :=
  fun w =>
    let w' := log_event (EvClone url path args) w in
    match git_clone E (now w) url path args with
    | Cloned entries =>
        (Val tt, set_fs (checkout path entries (fs w)) w')
    | CloneFailed leftover =>
        (Throw GitError,
         if leftover then set_fs (with_dir path (fs w)) w' else w')
    end.

(** [branchGit.submoduleInit()] *)
Definition submoduleInit (path : string) : M unit :=
  fun w =>
    let w' := log_event (EvSubmoduleInit path) w in
    if git_submodule E (now w) path then (Val tt, w') else (Throw GitError, w').

(** [branchGit.submoduleUpdate(args)] *)
Definition submoduleUpdate (path : string) (args : list string) : M unit :=
  fun w =>
    let w' := log_event (EvSubmoduleUpdate path args) w in
    if git_submodule E (now w) path then (Val tt, w') else (Throw GitError, w').

(** The clone URL, with the token embedded when one is configured.  The
    test is JavaScript truthiness: an unset variable and an empty one both
    give the plain URL. *)
Definition cloneUrl (username : string) (repo : Repository) : string :=
  match GITHUB_TOKEN E with
  | Some (String c token) =>
      "https://" ++ String c token ++ "@github.com/" ++ username ++ "/"
        ++ name repo ++ ".git"
  | Some EmptyString | None =>
      "https://github.com/" ++ username ++ "/" ++ name repo ++ ".git"
  end.

End Program.

Section Script.

Variable E : Env.

Definition maxRetries : nat := 3.

(** ** [fetchAllRepos] *)

(** The inner [while (retryCount < maxRetries)] loop of [fetchAllRepos] for
    one page.  Local variables of the enclosing function that it updates:
    [repos] and [page]. *)
Fixpoint fetchAllRepos_retry (fuel : nat) (username : string)
    (repos : list Repository) (page retryCount : nat)
  : M (Ctl (list Repository * nat) (list Repository)) :=
  match fuel with
  | 0 => diverge
  | S fuel' =>
      if retryCount <? maxRetries then
        r <- try_catch
               (data <- axios_get_repos E username page ;;
                if length data =? 0 then ret (Return repos)
                else ret (Break ((repos ++ data)%list, page + 1, retryCount)))
               (fun error =>
                  let retryCount := retryCount + 1 in
                  if bool_decide (status_of error = Some 403)
                  then process_exit 1
                  else if retryCount =? maxRetries then ret (Return repos)
                  else delay (1000 * retryCount) ;;;
                       ret (Continue (repos, page, retryCount))) ;;
        match r with
        | Continue (_, _, retryCount) =>
            fetchAllRepos_retry fuel' username repos page retryCount
        | Break (repos, page, _) => ret (Break (repos, page))
        | Return v => ret (Return v)
        end
      else ret (Break (repos, page))
  end.

(** The outer [while (true)] loop.  It has no exit of its own, so the
    statement after it, [return repos.filter((repo) => !repo.fork)], is
    never reached: the function returns only through the two [return repos]
    of the inner loop. *)
Fixpoint fetchAllRepos_pages (fuel : nat) (username : string)
    (repos : list Repository) (page : nat) : M (list Repository) :=
  match fuel with
  | 0 => diverge
  | S fuel' =>
      r <- fetchAllRepos_retry maxRetries username repos page 0 ;;
      match r with
      | Continue (repos, page) | Break (repos, page) =>
          fetchAllRepos_pages fuel' username repos page
      | Return v => ret v
      end
  end.

Definition fetchAllRepos (fuel : nat) (username : string)
  : M (list Repository) :=
  fetchAllRepos_pages fuel username [] 1.

(** The filter of the unreachable last statement. *)
Definition without_forks (repos : list Repository) : list Repository :=
  List.filter (fun repo => negb (fork repo)) repos.

(** ** [fetchBranches] *)

Fixpoint fetchBranches_retry (fuel : nat) (username repoName : string)
    (retryCount : nat) : M (list string) :=
  match fuel with
  | 0 => diverge
  | S fuel' =>
      if retryCount <? maxRetries then
        r <- try_catch
               (data <- axios_get_branches E username repoName ;;
                ret (Return (map branch_name data)))
               (fun error =>
                  let retryCount := retryCount + 1 in
                  if bool_decide (status_of error = Some 403)
                  then ret (Return [])
                  else if retryCount =? maxRetries then ret (Return [])
                  else delay (1000 * retryCount) ;;;
                       ret (Continue retryCount)) ;;
        match r with
        | Continue retryCount | Break retryCount =>
            fetchBranches_retry fuel' username repoName retryCount
        | Return v => ret v
        end
      else ret []
  end.

Definition fetchBranches (username repoName : string) : M (list string) :=
  fetchBranches_retry maxRetries username repoName 0.

(** ** [cloneBranch] *)

(** The body of the [try] of one attempt. *)
Definition cloneBranch_try (username : string) (repo : Repository)
    (branch branchPath : string) : M (Ctl unit bool) :=
  ex <- existsSync branchPath ;;
  if negb ex then
    git_clone_into E (cloneUrl E username repo) branchPath
      ["--branch"; branch; "--single-branch"; "--depth"; "1"] ;;;
    items <- readdirSync branchPath ;;
    let stats :=
      length (List.filter (fun item => negb (String.eqb item ".git")) items) in
    if stats =? 0 then
      rmSync E branchPath ;;;
      ret (Return false)
    else
      try_catch
        (submoduleInit E branchPath ;;;
         submoduleUpdate E branchPath ["--recursive"; "--init"; "--depth"; "1"])
        (fun submoduleError => ret tt) ;;;
      ret (Return true)
  else ret (Return true).

(** The [catch] of one attempt. *)
Definition cloneBranch_catch (branchPath : string) (attempt retries : nat)
    (error : Error) : M (Ctl unit bool) :=
  ex <- existsSync branchPath ;;
  (if ex then rmSync E branchPath else ret tt) ;;;
  if attempt <? retries then
    let delayTime := 2 ^ (attempt - 1) * 500 in
    delay delayTime ;;;
    ret (Continue tt)
  else ret (Return false).

(** [for (let attempt = 1; attempt <= retries; attempt++)] *)
Fixpoint cloneBranch_attempts (fuel : nat) (username : string)
    (repo : Repository) (branch branchPath : string) (retries attempt : nat)
  : M bool :=
  match fuel with
  | 0 => diverge
  | S fuel' =>
      if attempt <=? retries then
        r <- try_catch (cloneBranch_try username repo branch branchPath)
               (cloneBranch_catch branchPath attempt retries) ;;
        match r with
        | Continue _ =>
            cloneBranch_attempts fuel' username repo branch branchPath
              retries (attempt + 1)
        | Break _ => ret false
        | Return v => ret v
        end
      else ret false
  end.

(** [retries] is [None] when the caller leaves the argument out; the
    parameter then takes its default, 3. *)
Definition cloneBranch (username : string) (repo : Repository)
    (branch branchPath : string) (retries : option nat) : M bool :=
  let retries := default 3 retries in
  cloneBranch_attempts (retries + 1) username repo branch branchPath retries 1.

(** ** [cloneRepo] *)

(** Directory segment of a branch, [branch.replace("/", "-")]. *)
Definition branchDirName (branch : string) : string :=
  js_replace "/" "-" branch.

(** [for (const branch of branches)], carrying the two counters. *)
Fixpoint cloneRepo_branches (username : string) (repo : Repository)
    (repoPath : string) (branches : list string)
    (successfulBranches failedBranches : nat) : M (nat * nat) :=
  match branches with
  | [] => ret (successfulBranches, failedBranches)
  | branch :: rest =>
      let branchPath := path_join repoPath (branchDirName branch) in
      ok <- cloneBranch username repo branch branchPath None ;;
      let '(successfulBranches, failedBranches) :=
        if ok : bool then (successfulBranches + 1, failedBranches)
        else (successfulBranches, failedBranches + 1) in
      delay 500 ;;;
      cloneRepo_branches username repo repoPath rest
        successfulBranches failedBranches
  end.

(** [if (!fs.existsSync(p)) fs.mkdirSync(p, { recursive: true })] *)
Definition ensure_dir (p : string) : M unit :=
  ex <- existsSync p ;;
  if negb ex then mkdirSync E p else ret tt.

Definition cloneRepo_try (username : string) (repo : Repository)
    (repoPath : string) : M CloneResult :=
  ensure_dir repoPath ;;;
  branches <- fetchBranches username (name repo) ;;
  if length branches =? 0 then ret (mkResult false 0 0)
  else
    counts <- cloneRepo_branches username repo repoPath branches 0 0 ;;
    let '(successfulBranches, failedBranches) := counts in
    (if successfulBranches =? 0 then rmSync E repoPath else ret tt) ;;;
    ret (mkResult (0 <? successfulBranches) successfulBranches failedBranches).

Definition cloneRepo (username : string) (repo : Repository)
    (outputDir : string) : M CloneResult :=
  let repoPath := path_join outputDir (name repo) in
  try_catch (cloneRepo_try username repo repoPath)
    (fun error => ret (mkResult false 0 1)).

(** ** [cloneRootRepo] *)

Definition cloneRootRepo (username : string) (repo : Repository)
    (outputDir : string) : M RootResult :=
  let repoPath := path_join outputDir (name repo) in
  try_catch
    (ensure_dir repoPath ;;;
     git_clone_into E (cloneUrl E username repo) repoPath ["--depth"; "1"] ;;;
     ret (mkRootResult true))
    (fun error => ret (mkRootResult false)).

(** ** The orchestrator (the anonymous [async function] at the end) *)

(** One iteration of [for (const repo of repos)]. *)
Definition main_step (fetchBranchesOption : bool) (username outputDir : string)
    (t : Totals) (repo : Repository) : M Totals :=
  r <- (if fetchBranchesOption then
          result <- cloneRepo username repo outputDir ;;
          if success result then
            ret (success result,
                 set_branches
                   (totalSuccessfulBranches t + successfulBranches result)
                   (totalFailedBranches t + failedBranches result) t)
          else ret (success result, t)
        else
          result <- cloneRootRepo username repo outputDir ;;
          ret (root_success result, t)) ;;
  let '(ok, t) := r in
  let t := if ok : bool
           then set_repos (totalSuccessfulRepos t + 1) (totalFailedRepos t) t
           else set_repos (totalSuccessfulRepos t) (totalFailedRepos t + 1) t in
  delay 1000 ;;;
  ret t.

Fixpoint main_loop (fetchBranchesOption : bool) (username outputDir : string)
    (repos : list Repository) (t : Totals) : M Totals :=
  match repos with
  | [] => ret t
  | repo :: rest =>
      t <- main_step fetchBranchesOption username outputDir t repo ;;
      main_loop fetchBranchesOption username outputDir rest t
  end.

(** The whole run on [process.argv]; [fuel] bounds the number of listing
    pages.  The result is the totals of the final summary, or [None] when no
    repository was found. *)
Definition main (fuel : nat) (argv : list string) : M (option Totals) :=
  try_catch
    (let args := drop 2 argv in
     (if length args =? 0 then process_exit 1 else ret tt) ;;;
     let username := List.nth 0 args "" in
     let fetchBranchesOption := bool_decide ("--fetch-branches" ∈ args) in
     let outputDir :=
       path_join (path_join (dirname E) "repositories") username in
     ensure_dir outputDir ;;;
     repos <- fetchAllRepos fuel username ;;
     if length repos =? 0 then ret None
     else
       t <- main_loop fetchBranchesOption username outputDir repos
              (mkTotals 0 0 0 0) ;;
       ret (Some t))
    (fun error => process_exit 1).

End Script.

(** ** Concrete environments used by the examples *)

Module Ex.

(** A remote that never fails: one page of repositories, two branches per
    repository, clones that check out one file. *)
Definition listing_one_fork (t : nat) (u : string) (page : nat)
  : Error + list Repository :=
  match page with
  | 1 => inr [mkRepo "lib" true; mkRepo "app" false]
  | _ => inr []
  end.

Definition healthy : Env :=
  mkEnv None "/srv"
    listing_one_fork
    (fun _ _ _ => inr [mkBranch "main"; mkBranch "feature/x"])
    (fun _ _ _ _ => Cloned [".git"; "README.md"])
    (fun _ _ => true)
    (fun _ _ => true)
    (fun _ _ => true).

(** The same remote, but every clone fails and leaves nothing behind. *)
Definition no_git : Env :=
  mkEnv None "/srv"
    listing_one_fork
    (fun _ _ _ => inr [mkBranch "main"])
    (fun _ _ _ _ => CloneFailed false)
    (fun _ _ => true)
    (fun _ _ => true)
    (fun _ _ => true).


(** A branches endpoint that fails twice with a server error, then answers. *)
Definition flaky_branches : Env :=
  mkEnv (Some "tok") "/srv"
    listing_one_fork
    (fun t _ _ => if t <? 4 then inl (HttpError (Some 500))
                  else inr [mkBranch "main"; mkBranch "dev"])
    (fun _ _ _ _ => Cloned [".git"; "README.md"])
    (fun _ _ => true)
    (fun _ _ => true)
    (fun _ _ => true).

(** A listing endpoint whose very first answer is a gateway error. *)
Definition flaky_listing : Env :=
  mkEnv None "/srv"
    (fun t u page => if t =? 0 then inl (HttpError (Some 502))
                     else listing_one_fork t u page)
    (fun _ _ _ => inr [mkBranch "main"])
    (fun _ _ _ _ => Cloned [".git"; "README.md"])
    (fun _ _ => true)
    (fun _ _ => true)
    (fun _ _ => true).

(** A listing endpoint that serves page 1 and then only server errors. *)
Definition broken_second_page : Env :=
  mkEnv None "/srv"
    (fun t u page => match page with
                     | 1 => listing_one_fork t u page
                     | _ => inl (HttpError (Some 500))
                     end)
    (fun _ _ _ => inr [mkBranch "main"])
    (fun _ _ _ _ => Cloned [".git"; "README.md"])
    (fun _ _ => true)
    (fun _ _ => true)
    (fun _ _ => true).


(** Two branches and clones that fail and leave nothing behind. *)
Definition no_git_two_branches : Env :=
  mkEnv None "/srv"
    listing_one_fork
    (fun _ _ _ => inr [mkBranch "main"; mkBranch "dev"])
    (fun _ _ _ _ => CloneFailed false)
    (fun _ _ => true)
    (fun _ _ => true)
    (fun _ _ => true).

(** Two branches, clones that fail and leave nothing behind, and a disk
    that refuses removals. *)
Definition stuck_no_git : Env :=
  mkEnv None "/srv"
    listing_one_fork
    (fun _ _ _ => inr [mkBranch "main"; mkBranch "dev"])
    (fun _ _ _ _ => CloneFailed false)
    (fun _ _ => true)
    (fun _ _ => true)
    (fun _ _ => false).

Definition app : Repository := mkRepo "app" false.

Definition blank : World := mkWorld ∅ [].

(** A disk on which the root clone target of [app] is already there. *)
Definition with_app_dir : World := mkWorld {[ "/out/app" ]} [].

(** A disk on which branch [main] of [app] was cloned before. *)
Definition with_main : World :=
  mkWorld {[ "/out/app"; "/out/app/main"; "/out/app/main/README.md" ]} [].

End Ex.

(** ** Vocabulary of the statements *)

(** An answer of an endpoint is [transient] when it is an error other than
    403, and [rate_limited] when it is the error 403. *)
Definition transient {A} (x : Error + A) : Prop :=
  match x with
  | inl e => status_of e <> Some 403
  | inr _ => False
  end.

Definition rate_limited {A} (x : Error + A) : Prop :=
  match x with
  | inl e => status_of e = Some 403
  | inr _ => False
  end.

(** What [cloneBranch] counts after a clone: the entries of the directory
    other than the version-control metadata. *)
Definition tracked_entries (p : string) (w : World) : list string :=
  List.filter (fun item => negb (String.eqb item ".git")) (listing p (fs w)).

(** The arguments [cloneBranch] passes to [git.clone]. *)
Definition branch_clone_args (branch : string) : list string :=
  ["--branch"; branch; "--single-branch"; "--depth"; "1"].

(** The world after [git.clone] succeeded, and after the submodule calls
    that follow a non-empty clone ([submoduleUpdate] runs only when
    [submoduleInit] did not throw). *)
Definition cloned (url path : string) (args entries : list string)
    (w : World) : World :=
  set_fs (checkout path entries (fs w)) (log_event (EvClone url path args) w).

Definition with_submodules (E : Env) (path : string) (w : World) : World :=
  if git_submodule E (now w) path
  then log_event
         (EvSubmoduleUpdate path ["--recursive"; "--init"; "--depth"; "1"])
         (log_event (EvSubmoduleInit path) w)
  else log_event (EvSubmoduleInit path) w.

(** The results of the calls of [cloneBranch] that the branch loop of
    [cloneRepo] makes from world [w], in order. *)
Fixpoint branch_outcomes (E : Env) (username : string) (repo : Repository)
    (repoPath : string) (branches : list string) (w : World) : list bool :=
  match branches with
  | [] => []
  | branch :: rest =>
      match cloneBranch E username repo branch
              (path_join repoPath (branchDirName branch)) None w with
      | (Val ok, w') =>
          ok :: branch_outcomes E username repo repoPath rest
                  (log_event (EvDelay 500) w')
      | _ => []
      end
  end.

Definition count_ok (outcomes : list bool) : nat :=
  length (List.filter (fun ok => ok) outcomes).

Definition count_failed (outcomes : list bool) : nat :=
  length (List.filter negb outcomes).

(** Number of [git.clone] calls in a history. *)
Definition clone_events (l : list Event) : nat :=
  length (List.filter (fun ev => match ev with
                                 | EvClone _ _ _ => true
                                 | _ => false
                                 end) l).

(** Every path of [w] other than [p] and what lies below [p] is still
    there in [w']. *)
Definition kept_outside (p : string) (w w' : World) : Prop :=
  forall q, q ∈ fs w -> q <> p -> is_under p q = false -> q ∈ fs w'.

(** The world after [fs.rmSync] removed [p] and all below it. *)
Definition removed (p : string) (w : World) : World :=
  set_fs (remove_tree p (fs w)) (log_event (EvRm p) w).

(** The world after [git.clone] threw, with or without a directory left
    behind. *)
Definition failed_clone (url path : string) (args : list string)
    (leftover : bool) (w : World) : World :=
  if leftover
  then set_fs (with_dir path (fs w)) (log_event (EvClone url path args) w)
  else log_event (EvClone url path args) w.

(** The end of the [catch] of [cloneBranch] once the clean-up is done:
    back off and go on to the next attempt, or give up. *)
Definition backoff (attempt retries : nat) (w : World)
  : Outcome (Ctl unit bool) * World :=
  if attempt <? retries
  then (Val (Continue tt), log_event (EvDelay (2 ^ (attempt - 1) * 500)) w)
  else (Val (Return false), w).

(** History left by [n] failed attempts at request [req], each followed by
    its linear back-off. *)
Definition failed_attempts (req : Event) (n : nat) : list Event :=
  flat_map (fun k => [req; EvDelay (1000 * (k + 1))]) (seq 0 n).

(** The world after the events [l] happened, the disk unchanged. *)
Definition extend (l : list Event) (w : World) : World :=
  mkWorld (fs w) (trace w ++ l).

(** A schedule says how the listing endpoint serves successive pages: an
    item [(k, data)] is a page answered with [data] after [k] transient
    errors.  [served E u t page sched] holds when the endpoint of [E]
    follows the schedule from page [page] on, first asked at time [t].
    An attempt and its back-off take two events, a served page one. *)
Fixpoint served (E : Env) (username : string) (t page : nat)
    (sched : list (nat * list Repository)) : Prop :=
  match sched with
  | [] => True
  | (k, data) :: rest =>
      k < 3
      /\ (forall j, j < k ->
            transient (listing_api E (t + 2 * j) username page))
      /\ listing_api E (t + 2 * k) username page = inr data
      /\ served E username (t + 2 * k + 1) (page + 1) rest
  end.

(** The history a schedule leaves. *)
Fixpoint schedule_trace (username : string) (page : nat)
    (sched : list (nat * list Repository)) : list Event :=
  match sched with
  | [] => []
  | (k, _) :: rest =>
      failed_attempts (EvGetRepos username page) k
        ++ [EvGetRepos username page]
        ++ schedule_trace username (page + 1) rest
  end.

(** The listing requests of a history ask for no page beyond [n]. *)
Definition pages_up_to (n : nat) (l : list Event) : Prop :=
  Forall (fun ev => match ev with
                    | EvGetRepos _ page => page <= n
                    | _ => True
                    end) l.

(** ** Vocabulary of the further properties *)

(** From time [t] on, the listing endpoint answers the requests of [page]
    with [k] transient errors and then a 403. *)
Definition refused (E : Env) (username : string) (t page k : nat) : Prop :=
  k < 3
  /\ (forall j, j < k -> transient (listing_api E (t + 2 * j) username page))
  /\ rate_limited (listing_api E (t + 2 * k) username page).

(** From time [t] on, the three attempts at [page] all meet a transient
    error. *)
Definition unavailable (E : Env) (username : string) (t page : nat) : Prop :=
  forall j, j < 3 -> transient (listing_api E (t + 2 * j) username page).

(** The events a lister may cause: its own requests and delays. *)
Definition listing_event (ev : Event) : Prop :=
  match ev with
  | EvGetRepos _ _ | EvDelay _ => True
  | _ => False
  end.

Definition branches_event (ev : Event) : Prop :=
  match ev with
  | EvGetBranches _ _ | EvDelay _ => True
  | _ => False
  end.

(** Number of requests to the branches endpoint in a history. *)
Definition branches_requests (l : list Event) : nat :=
  length (List.filter (fun ev => match ev with
                                 | EvGetBranches _ _ => true
                                 | _ => false
                                 end) l).

(** The world after a failed clone attempt and its clean-up: what the
    clone left behind is removed. *)
Definition cleaned_up (url path : string) (args : list string)
    (leftover : bool) (w : World) : World :=
  if leftover then removed path (failed_clone url path args true w)
  else failed_clone url path args false w.

(** The world after a failed attempt that is retried: cleaned up, then the
    exponential back-off. *)
Definition retried (url path : string) (args : list string) (attempt : nat)
    (leftover : bool) (w : World) : World :=
  log_event (EvDelay (2 ^ (attempt - 1) * 500))
    (cleaned_up url path args leftover w).

(** The world after a run of failed attempts that are all retried, from
    attempt number [attempt] on; a flag says whether that clone left a
    directory behind. *)
Fixpoint retried_all (url path : string) (args : list string) (attempt : nat)
    (flags : list bool) (w : World) : World :=
  match flags with
  | [] => w
  | leftover :: rest =>
      retried_all url path args (attempt + 1) rest
        (retried url path args attempt leftover w)
  end.

(** The clone commands of successive attempts fail as the flags say, and
    each removal of what a failed clone left behind goes through. *)
Fixpoint clone_failures (E : Env) (url path : string) (args : list string)
    (attempt : nat) (flags : list bool) (w : World) : Prop :=
  match flags with
  | [] => True
  | leftover :: rest =>
      git_clone E (now w) url path args = CloneFailed leftover
      /\ (leftover = true ->
          rm_ok E (now (failed_clone url path args leftover w)) path = true)
      /\ clone_failures E url path args (attempt + 1) rest
           (retried url path args attempt leftover w)
  end.

(** History of such a run. *)
Fixpoint failures_trace (url path : string) (args : list string)
    (attempt : nat) (flags : list bool) : list Event :=
  match flags with
  | [] => []
  | leftover :: rest =>
      EvClone url path args
        :: (if leftover then [EvRm path] else [])
        ++ EvDelay (2 ^ (attempt - 1) * 500)
        :: failures_trace url path args (attempt + 1) rest
  end.

(** Outcomes that are neither a thrown error nor an exit code other
    than 1. *)
Definition exits_only_with_1 {A} (o : Outcome A) : Prop :=
  match o with
  | Throw _ => False
  | Exit code => code = 1
  | _ => True
  end.

Module Ex2.

(** A listing endpoint that never runs out of repositories. *)
Definition endless : Env :=
  mkEnv None "/srv"
    (fun _ _ _ => inr [mkRepo "app" false])
    (fun _ _ _ => inr [mkBranch "main"])
    (fun _ _ _ _ => Cloned [".git"; "README.md"])
    (fun _ _ => true)
    (fun _ _ => true)
    (fun _ _ => true).

(** A listing endpoint that serves one page and then refuses with 403. *)
Definition rate_limited_second_page : Env :=
  mkEnv None "/srv"
    (fun t u page => match page with
                     | 1 => Ex.listing_one_fork t u page
                     | _ => inl (HttpError (Some 403))
                     end)
    (fun _ _ _ => inr [mkBranch "main"])
    (fun _ _ _ _ => Cloned [".git"; "README.md"])
    (fun _ _ => true)
    (fun _ _ => true)
    (fun _ _ => true).

(** A remote that refuses every listing request. *)
Definition rate_limited_listing : Env :=
  mkEnv None "/srv"
    (fun _ _ _ => inl (HttpError (Some 403)))
    (fun _ _ _ => inr [mkBranch "main"])
    (fun _ _ _ _ => Cloned [".git"; "README.md"])
    (fun _ _ => true)
    (fun _ _ => true)
    (fun _ _ => true).

(** A user without repositories. *)
Definition no_repositories : Env :=
  mkEnv None "/srv"
    (fun _ _ _ => inr [])
    (fun _ _ _ => inr [])
    (fun _ _ _ _ => Cloned [".git"; "README.md"])
    (fun _ _ => true)
    (fun _ _ => true)
    (fun _ _ => true).

(** A repository without branches. *)
Definition no_branches : Env :=
  mkEnv None "/srv"
    Ex.listing_one_fork
    (fun _ _ _ => inr [])
    (fun _ _ _ _ => Cloned [".git"; "README.md"])
    (fun _ _ => true)
    (fun _ _ => true)
    (fun _ _ => true).

(** A disk on which no directory can be made. *)
Definition read_only : Env :=
  mkEnv None "/srv"
    Ex.listing_one_fork
    (fun _ _ _ => inr [mkBranch "main"])
    (fun _ _ _ _ => Cloned [".git"; "README.md"])
    (fun _ _ => true)
    (fun _ _ => false)
    (fun _ _ => true).

(** Clones that fail and leave a partial directory behind. *)
Definition partial_clones : Env :=
  mkEnv None "/srv"
    Ex.listing_one_fork
    (fun _ _ _ => inr [mkBranch "main"])
    (fun _ _ _ _ => CloneFailed true)
    (fun _ _ => true)
    (fun _ _ => true)
    (fun _ _ => true).

(** Clones that work, submodule commands that do not. *)
Definition no_submodules : Env :=
  mkEnv None "/srv"
    Ex.listing_one_fork
    (fun _ _ _ => inr [mkBranch "fix/login"; mkBranch "fix-login"])
    (fun _ _ _ _ => Cloned [".git"; "README.md"])
    (fun _ _ => false)
    (fun _ _ => true)
    (fun _ _ => true).

(** A clone that fails once, leaving a partial directory, and then works;
    submodule commands that do not. *)
Definition second_try : Env :=
  mkEnv None "/srv"
    Ex.listing_one_fork
    (fun _ _ _ => inr [mkBranch "main"])
    (fun t _ _ _ => if t =? 0 then CloneFailed true
                    else Cloned [".git"; "README.md"])
    (fun _ _ => false)
    (fun _ _ => true)
    (fun _ _ => true).

(** Branch [main] clones; every clone of [dev] fails and leaves a partial
    directory behind. *)
Definition one_good_branch : Env :=
  mkEnv None "/srv"
    Ex.listing_one_fork
    (fun _ _ _ => inr [mkBranch "main"; mkBranch "dev"])
    (fun _ _ path _ => if String.eqb path "/out/app/dev" then CloneFailed true
                       else Cloned [".git"; "README.md"])
    (fun _ _ => true)
    (fun _ _ => true)
    (fun _ _ => true).

End Ex2.

(** * Properties *)

(** ** Slash substitution in branch directory names *)

Lemma substring_whole (s : string) : substring 0 (String.length s) s = s.
Proof. induction s as [|c s IH]; simpl; [reflexivity | now rewrite IH]. Qed.

Lemma prefix_empty (s : string) : String.prefix "" s = true.
Proof. destruct s; reflexivity. Qed.

Lemma index_slash_cons (c : ascii) (s : string) :
  index 0 "/" (String c s)
  = if Ascii.eqb c "/" then Some 0
    else match index 0 "/" s with
         | Some n => Some (S n)
         | None => None
         end.
Proof.
  cbn [index String.prefix].
  destruct (ascii_dec "/" c) as [<- | Hne].
  - now rewrite prefix_empty.
  - assert (Ascii.eqb c "/" = false) as ->
      by (apply Ascii.eqb_neq; congruence).
    reflexivity.
Qed.

(** [replace] stops at the first slash: the rest of the name is copied. *)
Lemma branchDirName_cons (c : ascii) (s : string) :
  branchDirName (String c s)
  = if Ascii.eqb c "/" then String "-" s else String c (branchDirName s).
Proof.
  unfold branchDirName, js_replace.
  rewrite index_slash_cons.
  destruct (Ascii.eqb c "/") eqn:Hc.
  - cbn. now rewrite Nat.sub_0_r, substring_whole.
  - destruct (index 0 "/" s) as [i|]; reflexivity.
Qed.

(** At most one slash disappears, whatever the branch name. *)
Lemma branchDirName_slashes (branch : string) :
  count_char "/" (branchDirName branch) = count_char "/" branch - 1.
Proof.
  induction branch as [|c s IH]; [reflexivity |].
  rewrite branchDirName_cons.
  destruct (Ascii.eqb c "/") eqn:Hc.
  - apply Ascii.eqb_eq in Hc as ->. cbn. lia.
  - cbn [count_char]. rewrite IH.
    assert (Ascii.eqb "/" c = false) as ->
      by (rewrite Ascii.eqb_sym; exact Hc).
    lia.
Qed.

(** C2. The directory segment of a branch is meant to be the branch name
    with every slash replaced by a hyphen.  On the name [a/b/c], which has
    two slashes, [branch.replace("/", "-")] yields [a-b/c]: only the first
    slash is replaced and one slash is left in the segment. *)
Theorem branchDirName_keeps_second_slash :
  branchDirName "a/b/c" = "a-b/c"
  /\ count_char "/" (branchDirName "a/b/c") = 1
  /\ count_char "-" (branchDirName "a/b/c") = 1.
Proof. repeat split; reflexivity. Qed.

(** ** Fork filtering *)

(** C1. The result of [fetchAllRepos] is meant to hold no fork.  With a
    first page that lists the fork [lib] and the repository [app], the
    function returns both, on either of its two exits: through the
    [return repos] of the empty second page, and through the [return repos]
    that follows three failed requests of the second page.  The filter of
    the last statement would have kept [app] alone. *)
Theorem fetchAllRepos_returns_forks :
  fst (fetchAllRepos Ex.healthy 2 "u" Ex.blank)
  = Val [mkRepo "lib" true; mkRepo "app" false]
  /\ fst (fetchAllRepos Ex.broken_second_page 2 "u" Ex.blank)
     = Val [mkRepo "lib" true; mkRepo "app" false]
  /\ existsb fork [mkRepo "lib" true; mkRepo "app" false] = true
  /\ without_forks [mkRepo "lib" true; mkRepo "app" false]
     = [mkRepo "app" false].
Proof. repeat split; vm_compute; reflexivity. Qed.

(** The orchestrator then clones the fork like any other repository. *)
Example main_clones_the_fork :
  fst (main Ex.healthy 2 ["node"; "index.js"; "u"] Ex.blank)
  = Val (Some (mkTotals 2 0 0 0))
  /\ bool_decide
       ("/srv/repositories/u/lib"
        ∈ fs (snd (main Ex.healthy 2 ["node"; "index.js"; "u"] Ex.blank)))
     = true.
Proof. split; vm_compute; reflexivity. Qed.

(** ** Basic facts about the world and the external calls *)

Lemma now_log (e : Event) (w : World) : now (log_event e w) = S (now w).
Proof. unfold now, log_event. cbn. rewrite length_app. cbn. lia. Qed.

Lemma trace_log (e : Event) (w : World) :
  trace (log_event e w) = (trace w ++ [e])%list.
Proof. reflexivity. Qed.

(** ** The branch lister *)

Section BranchLister.

Variable E : Env.
Variables username repoName : string.

(** One iteration of the retry loop, by the answer of the endpoint. *)
Lemma fetchBranches_retry_step (fuel retryCount : nat) (w : World) :
  retryCount < maxRetries ->
  fetchBranches_retry E (S fuel) username repoName retryCount w
  = let w1 := log_event (EvGetBranches username repoName) w in
    match branches_api E (now w) username repoName with
    | inr data => (Val (map branch_name data), w1)
    | inl e =>
        if bool_decide (status_of e = Some 403) then (Val [], w1)
        else if retryCount + 1 =? maxRetries then (Val [], w1)
        else fetchBranches_retry E fuel username repoName (retryCount + 1)
               (log_event (EvDelay (1000 * (retryCount + 1))) w1)
    end.
Proof.
  intros Hlt. cbn [fetchBranches_retry].
  apply Nat.ltb_lt in Hlt as ->.
  unfold bind, try_catch, axios_get_branches, ret, delay. cbn zeta.
  destruct (branches_api E (now w) username repoName) as [e | data];
    [| reflexivity].
  destruct (bool_decide (status_of e = Some 403)); [reflexivity |].
  destruct (retryCount + 1 =? maxRetries); reflexivity.
Qed.

(** The loop returns a sequence once the fuel covers the retries left. *)
Lemma fetchBranches_retry_returns (fuel : nat) :
  forall (retryCount : nat) (w : World),
    retryCount < maxRetries ->
    maxRetries <= fuel + retryCount ->
    exists bs w',
      fetchBranches_retry E fuel username repoName retryCount w = (Val bs, w')
      /\ fs w' = fs w.
Proof.
  induction fuel as [|fuel IH]; intros retryCount w Hlt Hfuel; [lia |].
  rewrite fetchBranches_retry_step by exact Hlt. cbn zeta.
  destruct (branches_api E (now w) username repoName) as [e | data].
  2: { do 2 eexists. split; reflexivity. }
  destruct (bool_decide (status_of e = Some 403)).
  { do 2 eexists. split; reflexivity. }
  destruct (retryCount + 1 =? maxRetries) eqn:Hlast.
  { do 2 eexists. split; reflexivity. }
  apply Nat.eqb_neq in Hlast.
  destruct (IH (retryCount + 1)
              (log_event (EvDelay (1000 * (retryCount + 1)))
                 (log_event (EvGetBranches username repoName) w)))
    as (bs & w' & Hrun & Hfs); [lia | lia |].
  exists bs, w'. split; [exact Hrun |]. rewrite Hfs. reflexivity.
Qed.

Lemma fetchBranches_returns (w : World) :
  exists bs w',
    fetchBranches E username repoName w = (Val bs, w') /\ fs w' = fs w.
Proof.
  apply fetchBranches_retry_returns; unfold maxRetries; lia.
Qed.

End BranchLister.

Section BranchListerContract.

Variable E : Env.
Variables username repoName : string.

Local Ltac earlier H :=
  try (pose proof (H 0 ltac:(lia))); try (pose proof (H 1 ltac:(lia)));
  try (pose proof (H 2 ltac:(lia))).

Local Ltac settle R0 R1 R2 :=
  do 2 eexists; split; [reflexivity |];
  split; [| split];
  [ intros [|[|[|?]]] ? ? ? | intros ? | intros [|[|[|?]]] ? ? ? ? ];
  try lia;
  match goal with
  | H : forall j, _ -> transient _ |- _ => earlier H
  end;
  repeat match goal with
         | H : context [ _ 0 ] |- _ => rewrite R0 in H
         | H : context [ _ 1 ] |- _ => rewrite R1 in H
         | H : context [ _ 2 ] |- _ => rewrite R2 in H
         end;
  cbn in *; try contradiction; try congruence;
  try (split; [reflexivity |]);
  try (rewrite ?trace_log; unfold failed_attempts;
       cbn [flat_map seq app]; rewrite <- ?app_assoc; reflexivity).

(** C6. [fetchBranches] never raises: it always returns a sequence.  With
    [resp i] the answer to its attempt number [i] (counting from 0; attempt
    [i] is made two events after attempt [i - 1], a request and a delay):
    a 403 after only transient errors gives the empty sequence at once, the
    refused request being the last event; three transient errors give the
    empty sequence; a success after only transient errors gives the names
    of the branches. *)
Theorem fetchBranches_never_raises (w : World) :
  let resp i := branches_api E (now w + 2 * i) username repoName in
  let req := EvGetBranches username repoName in
  exists bs w',
    fetchBranches E username repoName w = (Val bs, w')
    /\ (forall i, i < 3 -> (forall j, j < i -> transient (resp j)) ->
         rate_limited (resp i) ->
         bs = []
         /\ trace w' = (trace w ++ failed_attempts req i ++ [req])%list)
    /\ ((forall j, j < 3 -> transient (resp j)) -> bs = [])
    /\ (forall i data, i < 3 -> (forall j, j < i -> transient (resp j)) ->
         resp i = inr data -> bs = map branch_name data).
Proof.
  intros resp req. subst req.
  assert (R0 : branches_api E (now w) username repoName = resp 0)
    by (unfold resp; f_equal; lia).
  assert (R1 : branches_api E (S (S (now w))) username repoName = resp 1)
    by (unfold resp; f_equal; lia).
  assert (R2 : branches_api E (S (S (S (S (now w))))) username repoName
               = resp 2)
    by (unfold resp; f_equal; lia).
  clearbody resp.
  unfold fetchBranches.
  change (fetchBranches_retry E maxRetries) with (fetchBranches_retry E 3).
  rewrite fetchBranches_retry_step by (unfold maxRetries; lia).
  cbn zeta. rewrite R0. destruct (resp 0) as [e0 | d0] eqn:E0.
  2: { settle E0 E0 E0. }
  case_bool_decide as F0.
  { settle E0 E0 E0. }
  cbn [Nat.eqb Nat.add maxRetries].
  rewrite fetchBranches_retry_step by (unfold maxRetries; lia).
  cbn zeta. rewrite !now_log, R1. destruct (resp 1) as [e1 | d1] eqn:E1.
  2: { settle E0 E1 E1. }
  case_bool_decide as F1.
  { settle E0 E1 E1. }
  cbn [Nat.eqb Nat.add maxRetries].
  rewrite fetchBranches_retry_step by (unfold maxRetries; lia).
  cbn zeta. rewrite !now_log, R2. destruct (resp 2) as [e2 | d2] eqn:E2.
  2: { settle E0 E1 E2. }
  case_bool_decide as F2.
  { settle E0 E1 E2. }
  cbn [Nat.eqb Nat.add maxRetries].
  settle E0 E1 E2.
Qed.

End BranchListerContract.

Lemma fetchBranches_never_raises_witness :
  exists w', fetchBranches Ex.flaky_branches "u" "app" Ex.blank
             = (Val ["main"; "dev"], w').
Proof.
  destruct (fetchBranches_never_raises Ex.flaky_branches "u" "app" Ex.blank)
    as (bs & w' & Hrun & _ & _ & Hok).
  exists w'. rewrite Hrun. f_equal. f_equal.
  apply (Hok 2 [mkBranch "main"; mkBranch "dev"]).
  - lia.
  - intros [|[|j]] Hj; [cbn; discriminate | cbn; discriminate | lia].
  - reflexivity.
Defined.

(** ** The filesystem model *)

Lemma in_with_dir (p : string) (f : gset string) : p ∈ with_dir p f.
Proof. unfold with_dir. set_solver. Qed.

Lemma in_checkout (p : string) (entries : list string) (f : gset string) :
  p ∈ checkout p entries f.
Proof. unfold checkout. pose proof (in_with_dir p f). set_solver. Qed.

Lemma not_in_remove_tree (p : string) (f : gset string) :
  p ∉ remove_tree p f.
Proof. unfold remove_tree. rewrite elem_of_filter. tauto. Qed.

Lemma in_with_dir_old (p q : string) (f : gset string) :
  q ∈ f -> q ∈ with_dir p f.
Proof. unfold with_dir. set_solver. Qed.

Lemma in_checkout_old (p q : string) (entries : list string)
    (f : gset string) :
  q ∈ f -> q ∈ checkout p entries f.
Proof. intros H. unfold checkout. apply (in_with_dir_old p) in H. set_solver. Qed.

Lemma in_remove_tree (p q : string) (f : gset string) :
  q ∈ f -> q <> p -> is_under p q = false -> q ∈ remove_tree p f.
Proof.
  intros Hin Hne Hunder. unfold remove_tree. apply elem_of_filter.
  split; [| exact Hin]. split; [exact Hne |]. rewrite Hunder. auto.
Qed.

Lemma clone_events_app (l1 l2 : list Event) :
  clone_events (l1 ++ l2) = clone_events l1 + clone_events l2.
Proof. unfold clone_events. now rewrite List.filter_app, length_app. Qed.

Lemma kept_outside_refl (p : string) (w : World) : kept_outside p w w.
Proof. intros q Hq _ _. exact Hq. Qed.

Lemma kept_outside_trans (p : string) (w1 w2 w3 : World) :
  kept_outside p w1 w2 -> kept_outside p w2 w3 -> kept_outside p w1 w3.
Proof. intros H12 H23 q Hq Hne Hout. apply H23; auto. Qed.

Lemma kept_outside_removed (p : string) (w : World) :
  kept_outside p w (removed p w).
Proof. intros q Hq Hne Hout. cbn. now apply in_remove_tree. Qed.

Lemma kept_outside_log (p : string) (ev : Event) (w : World) :
  kept_outside p w (log_event ev w).
Proof. intros q Hq _ _. exact Hq. Qed.

(** [fs.rmSync] by the answer of the disk. *)
Lemma rmSync_run (E : Env) (p : string) (w : World) :
  rmSync E p w
  = if bool_decide (p ∈ fs w) && negb (rm_ok E (now w) p)
    then (Throw FsError, log_event (EvRm p) w)
    else (Val tt, removed p w).
Proof. reflexivity. Qed.

Lemma rmSync_there (E : Env) (p : string) (w : World) :
  p ∈ fs w ->
  rmSync E p w
  = if rm_ok E (now w) p then (Val tt, removed p w)
    else (Throw FsError, log_event (EvRm p) w).
Proof.
  intros Hin. rewrite rmSync_run, bool_decide_eq_true_2 by exact Hin.
  destruct (rm_ok E (now w) p); reflexivity.
Qed.

(** ** The branch cloner *)

Section BranchCloner.

Variable E : Env.
Variable username : string.
Variable repo : Repository.
Variables branch branchPath : string.

Local Abbreviation url := (cloneUrl E username repo).
Local Abbreviation args := (branch_clone_args branch).
Local Abbreviation after_clone entries w :=
  (cloned url branchPath args entries w).
Local Abbreviation clone_event := (EvClone url branchPath args).

Lemma fs_with_submodules (w : World) :
  fs (with_submodules E branchPath w) = fs w.
Proof.
  unfold with_submodules. destruct (git_submodule E (now w) branchPath);
    reflexivity.
Qed.

Lemma trace_with_submodules (w : World) :
  exists sub,
    trace (with_submodules E branchPath w) = (trace w ++ sub)%list
    /\ clone_events sub = 0.
Proof.
  unfold with_submodules. destruct (git_submodule E (now w) branchPath).
  - eexists [_; _]. cbn. rewrite <- app_assoc. split; reflexivity.
  - eexists [_]. cbn. split; reflexivity.
Qed.

(** Step 1 of an attempt: an existing target is a success, nothing done. *)
Lemma cloneBranch_try_exists (w : World) :
  branchPath ∈ fs w ->
  cloneBranch_try E username repo branch branchPath w = (Val (Return true), w).
Proof.
  intros Hin. unfold cloneBranch_try, bind, existsSync.
  rewrite bool_decide_eq_true_2 by exact Hin. reflexivity.
Qed.

(** Steps 2 to 4 of an attempt on an absent target, by the outcome of the
    clone command and, for an empty clone, of the removal. *)
Lemma cloneBranch_try_run (w : World) :
  branchPath ∉ fs w ->
  cloneBranch_try E username repo branch branchPath w
  = match git_clone E (now w) url branchPath args with
    | Cloned entries =>
        if length (tracked_entries branchPath (after_clone entries w)) =? 0
        then if rm_ok E (now (after_clone entries w)) branchPath
             then (Val (Return false), removed branchPath (after_clone entries w))
             else (Throw FsError,
                   log_event (EvRm branchPath) (after_clone entries w))
        else (Val (Return true),
              with_submodules E branchPath (after_clone entries w))
    | CloneFailed leftover =>
        (Throw GitError, failed_clone url branchPath args leftover w)
    end.
Proof.
  intros Hnin. unfold cloneBranch_try, bind at 1, existsSync.
  rewrite bool_decide_eq_false_2 by exact Hnin. cbn [negb].
  unfold bind at 1, git_clone_into.
  change ["--branch"; branch; "--single-branch"; "--depth"; "1"]
    with args.
  destruct (git_clone E (now w) url branchPath args) as [entries | leftover].
  2: { unfold failed_clone. destruct leftover; reflexivity. }
  change (set_fs (checkout branchPath entries (fs w))
            (log_event (EvClone url branchPath args) w))
    with (after_clone entries w).
  unfold bind at 1, readdirSync.
  rewrite bool_decide_eq_true_2 by apply in_checkout.
  change (List.filter _ (listing branchPath (fs (after_clone entries w))))
    with (tracked_entries branchPath (after_clone entries w)).
  destruct (length (tracked_entries branchPath (after_clone entries w)) =? 0).
  - unfold bind. rewrite rmSync_there by apply in_checkout.
    destruct (rm_ok E (now (after_clone entries w)) branchPath); reflexivity.
  - unfold bind, try_catch, submoduleInit, submoduleUpdate, ret,
      with_submodules.
    destruct (git_submodule E (now (after_clone entries w)) branchPath);
      [| reflexivity].
    destruct (git_submodule E _ branchPath); reflexivity.
Qed.

(** Step 5, the [catch]: clean up what is there, then back off or give
    up. A removal that throws leaves the function. *)
Lemma cloneBranch_catch_run (attempt retries : nat) (error : Error)
    (w : World) :
  cloneBranch_catch E branchPath attempt retries error w
  = if bool_decide (branchPath ∈ fs w)
    then if rm_ok E (now w) branchPath
         then backoff attempt retries (removed branchPath w)
         else (Throw FsError, log_event (EvRm branchPath) w)
    else backoff attempt retries w.
Proof.
  unfold cloneBranch_catch, bind at 1, existsSync.
  destruct (bool_decide (branchPath ∈ fs w)) eqn:Hex.
  - apply bool_decide_eq_true_1 in Hex. unfold bind at 1.
    rewrite rmSync_there by exact Hex.
    destruct (rm_ok E (now w) branchPath); [| reflexivity].
    unfold backoff, bind, delay, ret. destruct (attempt <? retries); reflexivity.
  - unfold bind at 1, ret at 1.
    unfold backoff, bind, delay, ret. destruct (attempt <? retries); reflexivity.
Qed.

(** How the [catch] can end, from a world [wc] reached by the [try]. *)
Lemma cloneBranch_catch_cases (attempt retries : nat) (error : Error)
    (wc : World) :
  exists o w' l,
    cloneBranch_catch E branchPath attempt retries error wc = (o, w')
    /\ trace w' = (trace wc ++ l)%list
    /\ clone_events l = 0
    /\ kept_outside branchPath wc w'
    /\ match o with
       | Val (Continue _) => (branchPath ∉ fs w') /\ attempt < retries
       | Val (Return false) => branchPath ∉ fs w'
       | Throw e => e = FsError /\ branchPath ∈ fs w'
       | _ => False
       end.
Proof.
  rewrite cloneBranch_catch_run. unfold backoff.
  destruct (bool_decide (branchPath ∈ fs wc)) eqn:Hex.
  - apply bool_decide_eq_true_1 in Hex.
    destruct (rm_ok E (now wc) branchPath).
    + destruct (attempt <? retries) eqn:Hmore.
      * apply Nat.ltb_lt in Hmore. do 2 eexists. eexists [_; _].
        split; [reflexivity |]. split; [cbn; now rewrite <- app_assoc |].
        split; [reflexivity |]. split; [| split; [| exact Hmore]].
        -- eapply kept_outside_trans;
             [apply kept_outside_removed | apply kept_outside_log].
        -- apply not_in_remove_tree.
      * do 2 eexists. eexists [_].
        split; [reflexivity |]. split; [reflexivity |].
        split; [reflexivity |]. split; [apply kept_outside_removed |].
        apply not_in_remove_tree.
    + do 2 eexists. eexists [_].
      split; [reflexivity |]. split; [reflexivity |].
      split; [reflexivity |]. split; [apply kept_outside_log |].
      split; [reflexivity | exact Hex].
  - apply bool_decide_eq_false_1 in Hex.
    destruct (attempt <? retries) eqn:Hmore.
    + apply Nat.ltb_lt in Hmore. do 2 eexists. eexists [_].
      split; [reflexivity |]. split; [reflexivity |].
      split; [reflexivity |]. split; [apply kept_outside_log |].
      split; [exact Hex | exact Hmore].
    + do 2 eexists. exists [].
      split; [reflexivity |]. split; [now rewrite app_nil_r |].
      split; [reflexivity |]. split; [apply kept_outside_refl | exact Hex].
Qed.

(** How one attempt on an absent target can end: with [true] and a
    non-empty clone on disk, with [false] or a retry and no target on disk,
    or with the error of a removal that did not go through, the target
    still there. It runs one clone command and keeps what lies outside the
    target. *)
Lemma cloneBranch_attempt_cases (attempt retries : nat) (w : World) :
  branchPath ∉ fs w ->
  exists o w' l,
    try_catch (cloneBranch_try E username repo branch branchPath)
      (cloneBranch_catch E branchPath attempt retries) w
    = (o, w')
    /\ trace w' = (trace w ++ l)%list
    /\ clone_events l = 1
    /\ kept_outside branchPath w w'
    /\ match o with
       | Val (Return true) =>
           branchPath ∈ fs w' /\ tracked_entries branchPath w' <> []
       | Val (Return false) => branchPath ∉ fs w'
       | Val (Continue _) => (branchPath ∉ fs w') /\ attempt < retries
       | Throw e => e = FsError /\ branchPath ∈ fs w'
       | _ => False
       end.
Proof.
  intros Hnin. unfold try_catch. rewrite cloneBranch_try_run by exact Hnin.
  assert (forall error wc lc,
            trace wc = (trace w ++ lc)%list ->
            clone_events lc = 1 ->
            kept_outside branchPath w wc ->
            exists o w' l,
              cloneBranch_catch E branchPath attempt retries error wc = (o, w')
              /\ trace w' = (trace w ++ l)%list
              /\ clone_events l = 1
              /\ kept_outside branchPath w w'
              /\ match o with
                 | Val (Return true) =>
                     branchPath ∈ fs w' /\ tracked_entries branchPath w' <> []
                 | Val (Return false) => branchPath ∉ fs w'
                 | Val (Continue _) => (branchPath ∉ fs w') /\ attempt < retries
                 | Throw e => e = FsError /\ branchPath ∈ fs w'
                 | _ => False
                 end) as Hcatch.
  { intros error wc lc Htr Hn Hkept.
    destruct (cloneBranch_catch_cases attempt retries error wc)
      as (o & w' & l & Hrun & Htr' & Hn' & Hkept' & Hout).
    exists o, w', (lc ++ l)%list. split; [exact Hrun |].
    split; [rewrite Htr', Htr; now rewrite app_assoc |].
    split; [rewrite clone_events_app; lia |].
    split; [eapply kept_outside_trans; eassumption |].
    destruct o as [[? | ? | [|]] | ? | ? |]; auto; contradiction. }
  destruct (git_clone E (now w) url branchPath args) as [entries | leftover].
  - destruct (length (tracked_entries branchPath (after_clone entries w)) =? 0)
      eqn:Hstats.
    + destruct (rm_ok E (now (after_clone entries w)) branchPath).
      * do 2 eexists. eexists [clone_event; _].
        split; [reflexivity |]. split; [cbn; now rewrite <- app_assoc |].
        split; [reflexivity |]. split; [| apply not_in_remove_tree].
        intros q Hq Hne Hout. cbn.
        apply in_remove_tree; auto using in_checkout_old.
      * apply (Hcatch _ _ [clone_event; EvRm branchPath]).
        -- cbn. now rewrite <- app_assoc.
        -- reflexivity.
        -- intros q Hq _ _. cbn. now apply in_checkout_old.
    + destruct (trace_with_submodules (after_clone entries w))
        as (sub & Hsub & Hnone).
      do 2 eexists. exists (clone_event :: sub).
      split; [reflexivity |]. split; [| split; [| split; [| split]]].
      * rewrite Hsub. cbn. now rewrite <- app_assoc.
      * change (clone_events (clone_event :: sub)) with (S (clone_events sub)).
        now rewrite Hnone.
      * intros q Hq _ _. rewrite fs_with_submodules. cbn.
        now apply in_checkout_old.
      * rewrite fs_with_submodules. apply in_checkout.
      * unfold tracked_entries. rewrite fs_with_submodules. intros Hnil.
        unfold tracked_entries in Hstats. rewrite Hnil in Hstats.
        discriminate.
  - apply (Hcatch _ _ [clone_event]).
    + unfold failed_clone. destruct leftover; reflexivity.
    + reflexivity.
    + intros q Hq _ _. unfold failed_clone. destruct leftover; cbn;
        auto using in_with_dir_old.
Qed.

Local Abbreviation attempts fuel retries attempt :=
  (cloneBranch_attempts E fuel username repo branch branchPath retries attempt).

Lemma cloneBranch_attempts_exists (fuel retries attempt : nat) (w : World) :
  attempt <= retries ->
  branchPath ∈ fs w ->
  attempts (S fuel) retries attempt w = (Val true, w).
Proof.
  intros Hle Hin. cbn [cloneBranch_attempts].
  apply Nat.leb_le in Hle as ->.
  unfold bind, try_catch. now rewrite cloneBranch_try_exists.
Qed.


(** How the attempt loop can end, whatever the remote and the disk do:
    it returns a boolean or leaves with the error of a failed removal,
    having run no more clone commands than it has attempts left and kept
    what lies outside the target. On [true] the target is on disk (with an
    entry other than [.git] when this call cloned it); on [false] it is
    not, unless no attempt was made; on an error it is still there. *)
Lemma cloneBranch_attempts_result (retries fuel : nat) :
  forall (attempt : nat) (w : World),
    attempt <= retries + 1 ->
    retries + 2 <= fuel + attempt ->
    exists o w' l,
      attempts fuel retries attempt w = (o, w')
      /\ trace w' = (trace w ++ l)%list
      /\ clone_events l <= retries + 1 - attempt
      /\ kept_outside branchPath w w'
      /\ match o with
         | Val true =>
             branchPath ∈ fs w'
             /\ (branchPath ∉ fs w -> tracked_entries branchPath w' <> [])
         | Val false =>
             branchPath ∉ fs w' \/ (retries < attempt /\ w' = w)
         | Throw e => e = FsError /\ branchPath ∈ fs w'
         | _ => False
         end.
Proof.
  induction fuel as [|fuel IH]; intros attempt w Hle Hfuel; [lia |].
  cbn [cloneBranch_attempts].
  destruct (attempt <=? retries) eqn:Hgo.
  2: { apply Nat.leb_gt in Hgo. exists (Val false), w, []. unfold ret.
       rewrite app_nil_r. repeat split; [cbn; lia | apply kept_outside_refl |].
       right. auto. }
  apply Nat.leb_le in Hgo.
  destruct (decide (branchPath ∈ fs w)) as [Hin | Hnin].
  { exists (Val true), w, []. unfold bind, try_catch.
    rewrite cloneBranch_try_exists by exact Hin. rewrite app_nil_r.
    repeat split; [cbn; lia | apply kept_outside_refl | exact Hin | tauto]. }
  destruct (cloneBranch_attempt_cases attempt retries w Hnin)
    as (o & w1 & l1 & Hrun & Htr1 & Hn1 & Hkept1 & Hout1).
  unfold bind. rewrite Hrun.
  destruct o as [[[] | [] | [|]] | e | c |]; try contradiction.
  - destruct Hout1 as [Hnin1 Hmore].
    destruct (IH (attempt + 1) w1) as (o & w' & l & Hrec & Htr & Hn & Hkept & Hout);
      [lia | lia |].
    exists o, w', (l1 ++ l)%list. split; [exact Hrec |].
    split; [rewrite Htr, Htr1; now rewrite app_assoc |].
    split; [rewrite clone_events_app; lia |].
    split; [eapply kept_outside_trans; eassumption |].
    destruct o as [[|] | ? | ? |]; auto.
    + destruct Hout as [H1 H2]. split; [exact H1 |]. intros _. now apply H2.
    + destruct Hout as [H | [H _]]; [left; exact H | lia].
  - exists (Val true), w1, l1. unfold ret. split; [reflexivity |].
    split; [exact Htr1 |]. split; [lia |]. split; [exact Hkept1 |].
    destruct Hout1. auto.
  - exists (Val false), w1, l1. unfold ret. split; [reflexivity |].
    split; [exact Htr1 |]. split; [lia |]. split; [exact Hkept1 |].
    left. exact Hout1.
  - exists (Throw e), w1, l1. split; [reflexivity |].
    split; [exact Htr1 |]. split; [lia |]. split; [exact Hkept1 |].
    exact Hout1.
Qed.

Lemma cloneBranch_unfold (retries : option nat) (w : World) :
  cloneBranch E username repo branch branchPath retries w
  = attempts (S (default 3 retries)) (default 3 retries) 1 w.
Proof. unfold cloneBranch. now rewrite Nat.add_1_r. Qed.

Lemma cloneBranch_result (retries : option nat) (w : World) :
  exists o w' l,
    cloneBranch E username repo branch branchPath retries w = (o, w')
    /\ trace w' = (trace w ++ l)%list
    /\ clone_events l <= default 3 retries
    /\ kept_outside branchPath w w'
    /\ match o with
       | Val true =>
           branchPath ∈ fs w'
           /\ (branchPath ∉ fs w -> tracked_entries branchPath w' <> [])
       | Val false => 1 <= default 3 retries -> branchPath ∉ fs w'
       | Throw e => e = FsError /\ branchPath ∈ fs w'
       | _ => False
       end.
Proof.
  rewrite cloneBranch_unfold.
  destruct (cloneBranch_attempts_result (default 3 retries)
              (S (default 3 retries)) 1 w)
    as (o & w' & l & Hrun & Htr & Hn & Hkept & Hout); [lia | lia |].
  exists o, w', l. split; [exact Hrun |]. split; [exact Htr |].
  split; [lia |]. split; [exact Hkept |].
  destruct o as [[|] | ? | ? |]; auto.
  intros Hone. destruct Hout as [H | [H _]]; [exact H | lia].
Qed.

(** After a successful call the target is there, so calling again changes
    nothing. *)
Lemma cloneBranch_twice (w w' : World) :
  cloneBranch E username repo branch branchPath None w = (Val true, w') ->
  cloneBranch E username repo branch branchPath None w' = (Val true, w').
Proof.
  intros Hrun.
  destruct (cloneBranch_result None w) as (o & w1 & l & Hrun1 & _ & _ & _ & Hout).
  rewrite Hrun in Hrun1. injection Hrun1 as <- <-.
  destruct Hout as [Hin _].
  rewrite cloneBranch_unfold.
  apply cloneBranch_attempts_exists; [cbn; lia | exact Hin].
Qed.

(** C7. When the target path exists at the call, [cloneBranch] returns
    [true] and leaves the world as it was: no clone, no other external call,
    no change on disk.  Calling it again on the world it returns is the same
    no-op. *)
Theorem cloneBranch_existing_target (w : World) :
  branchPath ∈ fs w ->
  cloneBranch E username repo branch branchPath None w = (Val true, w)
  /\ cloneBranch E username repo branch branchPath None
       (snd (cloneBranch E username repo branch branchPath None w))
     = (Val true, w).
Proof.
  intros Hin.
  assert (cloneBranch E username repo branch branchPath None w = (Val true, w))
    as Hrun
    by (rewrite cloneBranch_unfold;
        apply cloneBranch_attempts_exists; [cbn; lia | exact Hin]).
  split; [exact Hrun |]. rewrite Hrun. exact Hrun.
Qed.


End BranchCloner.

Lemma cloneBranch_existing_target_witness :
  "/out/app/main" ∈ fs Ex.with_main
  /\ cloneBranch Ex.healthy "u" Ex.app "main" "/out/app/main" None Ex.with_main
     = (Val true, Ex.with_main).
Proof.
  assert ("/out/app/main" ∈ fs Ex.with_main) as Hin
    by (apply (bool_decide_unpack _); vm_compute; exact I).
  split; [exact Hin |].
  exact (proj1 (cloneBranch_existing_target Ex.healthy "u" Ex.app "main"
                  "/out/app/main" Ex.with_main Hin)).
Defined.



(** ** The per-repository branch loop *)

Section RepoCloner.

Variable E : Env.
Variable username : string.
Variable repo : Repository.
Variable repoPath : string.

Lemma count_ok_cons (ok : bool) (l : list bool) :
  count_ok (ok :: l) = (if ok then 1 else 0) + count_ok l.
Proof. unfold count_ok. destruct ok; reflexivity. Qed.

Lemma count_failed_cons (ok : bool) (l : list bool) :
  count_failed (ok :: l) = (if ok then 0 else 1) + count_failed l.
Proof. unfold count_failed. destruct ok; reflexivity. Qed.

Lemma count_ok_failed (l : list bool) :
  count_ok l + count_failed l = length l.
Proof.
  induction l as [|ok l IH]; [reflexivity |].
  rewrite count_ok_cons, count_failed_cons. destruct ok; cbn; lia.
Qed.

(** The loop either completes, having counted each outcome once, on one
    side or the other, or leaves with the error of the first call of
    [cloneBranch] that threw. *)
Lemma cloneRepo_branches_result (branches : list string) :
  forall (successfulBranches failedBranches : nat) (w : World),
    let outcomes := branch_outcomes E username repo repoPath branches w in
    exists o w',
      cloneRepo_branches E username repo repoPath branches
        successfulBranches failedBranches w = (o, w')
      /\ match o with
         | Val counts =>
             counts = (successfulBranches + count_ok outcomes,
                       failedBranches + count_failed outcomes)
             /\ length outcomes = length branches
         | Throw _ => length outcomes < length branches
         | _ => False
         end.
Proof.
  induction branches as [|branch rest IH]; intros s f w.
  - cbn. exists (Val (s, f)), w. unfold ret. rewrite !Nat.add_0_r. auto.
  - cbn [branch_outcomes cloneRepo_branches]. unfold bind at 1.
    destruct (cloneBranch_result E username repo branch
                (path_join repoPath (branchDirName branch)) None w)
      as (o & w1 & l & Hrun & _ & _ & _ & Hout).
    rewrite Hrun.
    destruct o as [ok | e | c |]; try contradiction.
    2: { exists (Throw e), w1. split; [reflexivity |]. cbn. lia. }
    cbn zeta.
    destruct ok.
    + destruct (IH (s + 1) f (log_event (EvDelay 500) w1))
        as (o & w' & Hrec & Hres).
      exists o, w'. unfold bind, delay. split; [exact Hrec |].
      destruct o as [counts | ? | ? |]; auto.
      * destruct Hres as [-> Hlen]. rewrite count_ok_cons, count_failed_cons.
        split; [f_equal; lia | cbn; now rewrite Hlen].
      * cbn [length]. lia.
    + destruct (IH s (f + 1) (log_event (EvDelay 500) w1))
        as (o & w' & Hrec & Hres).
      exists o, w'. unfold bind, delay. split; [exact Hrec |].
      destruct o as [counts | ? | ? |]; auto.
      * destruct Hres as [-> Hlen]. rewrite count_ok_cons, count_failed_cons.
        split; [f_equal; lia | cbn; now rewrite Hlen].
      * cbn [length]. lia.
Qed.

Lemma ensure_dir_cases (p : string) (w : World) :
  (exists w1, ensure_dir E p w = (Val tt, w1))
  \/ (exists e w1, ensure_dir E p w = (Throw e, w1)).
Proof.
  unfold ensure_dir, bind, existsSync, mkdirSync, ret.
  destruct (bool_decide (p ∈ fs w)); cbn [negb]; [left; eauto |].
  destruct (mkdir_ok E (now w) p); [left | right]; eauto.
Qed.

End RepoCloner.

Section RepoClonerContract.

Variable E : Env.
Variable username : string.
Variable repo : Repository.
Variable outputDir : string.

Local Abbreviation repoPath := (path_join outputDir (name repo)).

(** The run of [cloneRepo] once the directory is there, the branch lister
    has returned a non-empty list and the branch loop has completed. *)
Lemma cloneRepo_run (branches : list string) (counts : nat * nat)
    (w w1 w2 w3 : World) :
  ensure_dir E repoPath w = (Val tt, w1) ->
  fetchBranches E username (name repo) w1 = (Val branches, w2) ->
  branches <> [] ->
  cloneRepo_branches E username repo repoPath branches 0 0 w2
  = (Val counts, w3) ->
  cloneRepo E username repo outputDir w
  = if fst counts =? 0
    then if bool_decide (repoPath ∈ fs w3) && negb (rm_ok E (now w3) repoPath)
         then (Val (mkResult false 0 1), log_event (EvRm repoPath) w3)
         else (Val (mkResult false 0 (snd counts)), removed repoPath w3)
    else (Val (mkResult true (fst counts) (snd counts)), w3).
Proof.
  intros Hdir Hfetch Hne Hloop. destruct counts as [s f]. cbn [fst snd].
  unfold cloneRepo, try_catch, cloneRepo_try, bind at 1.
  rewrite Hdir. unfold bind at 1. rewrite Hfetch.
  destruct branches as [|b bs]; [congruence |]. cbn [length Nat.eqb].
  unfold bind at 1. rewrite Hloop.
  destruct (s =? 0) eqn:Hzero.
  - apply Nat.eqb_eq in Hzero as ->. unfold bind. rewrite rmSync_run.
    destruct (bool_decide (repoPath ∈ fs w3) && negb (rm_ok E (now w3) repoPath));
      reflexivity.
  - apply Nat.eqb_neq in Hzero.
    assert ((0 <? s) = true) as Hpos by (apply Nat.ltb_lt; lia).
    unfold bind, ret. now rewrite Hpos.
Qed.

(** An error that leaves the branch loop ends in the [catch]. *)
Lemma cloneRepo_thrown (branches : list string) (e : Error)
    (w w1 w2 w3 : World) :
  ensure_dir E repoPath w = (Val tt, w1) ->
  fetchBranches E username (name repo) w1 = (Val branches, w2) ->
  branches <> [] ->
  cloneRepo_branches E username repo repoPath branches 0 0 w2
  = (Throw e, w3) ->
  cloneRepo E username repo outputDir w = (Val (mkResult false 0 1), w3).
Proof.
  intros Hdir Hfetch Hne Hloop.
  unfold cloneRepo, try_catch, cloneRepo_try, bind at 1.
  rewrite Hdir. unfold bind at 1. rewrite Hfetch.
  destruct branches as [|b bs]; [congruence |]. cbn [length Nat.eqb].
  unfold bind at 1. rewrite Hloop. reflexivity.
Qed.

(** [cloneRepo] catches everything: it always returns a result, whose
    success flag says whether a branch was cloned. *)
Lemma cloneRepo_returns_flag (w : World) :
  exists r w',
    cloneRepo E username repo outputDir w = (Val r, w')
    /\ success r = (0 <? successfulBranches r).
Proof.
  destruct (ensure_dir_cases E repoPath w) as [[w1 Hdir] | (e & w1 & Hdir)].
  2: { unfold cloneRepo, try_catch, cloneRepo_try, bind. rewrite Hdir.
       unfold ret. eauto. }
  destruct (fetchBranches_returns E username (name repo) w1)
    as (branches & w2 & Hfetch & _).
  destruct branches as [|b bs].
  { unfold cloneRepo, try_catch, cloneRepo_try, bind. rewrite Hdir, Hfetch.
    cbn. unfold ret. eauto. }
  destruct (cloneRepo_branches_result E username repo repoPath (b :: bs) 0 0 w2)
    as (o & w3 & Hloop & Hres).
  destruct o as [counts | e | c |]; try contradiction.
  - rewrite (cloneRepo_run (b :: bs) counts w w1 w2 w3 Hdir Hfetch)
      by (discriminate || exact Hloop).
    destruct (fst counts =? 0) eqn:Hzero.
    + destruct (bool_decide (repoPath ∈ fs w3)
                && negb (rm_ok E (now w3) repoPath)); eauto.
    + apply Nat.eqb_neq in Hzero. do 2 eexists. split; [reflexivity |].
      cbn [success successfulBranches]. symmetry. apply Nat.ltb_lt. lia.
  - rewrite (cloneRepo_thrown (b :: bs) e w w1 w2 w3 Hdir Hfetch)
      by (discriminate || exact Hloop).
    eauto.
Qed.

Lemma cloneRepo_returns (w : World) :
  exists r w', cloneRepo E username repo outputDir w = (Val r, w').
Proof.
  destruct (cloneRepo_returns_flag w) as (r & w' & Hrun & _). eauto.
Qed.

(** One iteration of the orchestrator in branch mode, from the result of
    [cloneRepo]. *)
Lemma main_step_branch_mode (t : Totals) (r : CloneResult) (w w1 : World) :
  cloneRepo E username repo outputDir w = (Val r, w1) ->
  main_step E true username outputDir t repo w
  = (Val (if success r
          then mkTotals (totalSuccessfulRepos t + 1) (totalFailedRepos t)
                 (totalSuccessfulBranches t + successfulBranches r)
                 (totalFailedBranches t + failedBranches r)
          else mkTotals (totalSuccessfulRepos t) (totalFailedRepos t + 1)
                 (totalSuccessfulBranches t) (totalFailedBranches t)),
     log_event (EvDelay 1000) w1).
Proof.
  intros Hrun. unfold main_step, bind at 1. unfold bind at 1. rewrite Hrun.
  destruct (success r); reflexivity.
Qed.


(** C10, as the code has it. In branch mode, when the repository directory
    is in place, [fetchBranches] returns a non-empty list, the branch loop
    completes without an exception and, if no branch succeeded, the removal
    of the repository directory that follows the loop does not throw, then
    [cloneRepo] returns a result whose two counts add up to the number of
    branches, each branch being counted on the side of its own [cloneBranch]
    outcome, and whose success flag says whether the count of successes is
    positive. *)
Theorem cloneRepo_counts_every_branch (branches : list string)
    (counts : nat * nat) (w w1 w2 w3 : World) :
  ensure_dir E repoPath w = (Val tt, w1) ->
  fetchBranches E username (name repo) w1 = (Val branches, w2) ->
  branches <> [] ->
  cloneRepo_branches E username repo repoPath branches 0 0 w2
  = (Val counts, w3) ->
  (fst counts = 0 -> rm_ok E (now w3) repoPath = true) ->
  exists r w',
    cloneRepo E username repo outputDir w = (Val r, w')
    /\ successfulBranches r + failedBranches r = length branches
    /\ success r = (0 <? successfulBranches r)
    /\ successfulBranches r
       = count_ok (branch_outcomes E username repo repoPath branches w2)
    /\ failedBranches r
       = count_failed (branch_outcomes E username repo repoPath branches w2).
Proof.
  intros Hdir Hfetch Hne Hloop Hrm.
  destruct (cloneRepo_branches_result E username repo repoPath branches 0 0 w2)
    as (o & w3' & Hloop' & Hres).
  rewrite Hloop in Hloop'. injection Hloop' as <- <-.
  destruct Hres as [Hcounts Hlen]. cbn [Nat.add] in Hcounts.
  rewrite (cloneRepo_run branches counts w w1 w2 w3 Hdir Hfetch Hne Hloop).
  pose proof (count_ok_failed
                (branch_outcomes E username repo repoPath branches w2)) as Hsum.
  subst counts. cbn [fst snd] in *.
  destruct (count_ok (branch_outcomes E username repo repoPath branches w2) =? 0)
    eqn:Hzero.
  - apply Nat.eqb_eq in Hzero. rewrite (Hrm Hzero), andb_false_r.
    do 2 eexists. split; [reflexivity |]. cbn. rewrite Hzero in *.
    repeat split; lia.
  - apply Nat.eqb_neq in Hzero.
    do 2 eexists. split; [reflexivity |].
    cbn [success successfulBranches failedBranches].
    repeat split; try lia. symmetry. apply Nat.ltb_lt. lia.
Qed.


(** C4, as the code has it. In branch mode the orchestrator adds the two
    counts of a repository's result to the run-level branch totals when the
    result's success flag is [true], and leaves both totals as they were
    when it is [false]. *)
Theorem main_step_folds_on_success (t : Totals) (w : World) :
  exists r w1 t' w',
    cloneRepo E username repo outputDir w = (Val r, w1)
    /\ main_step E true username outputDir t repo w = (Val t', w')
    /\ totalSuccessfulBranches t'
       = totalSuccessfulBranches t
         + (if success r then successfulBranches r else 0)
    /\ totalFailedBranches t'
       = totalFailedBranches t + (if success r then failedBranches r else 0).
Proof.
  destruct (cloneRepo_returns w) as (r & w1 & Hrun).
  exists r, w1. do 2 eexists. split; [exact Hrun |].
  split; [exact (main_step_branch_mode t r w w1 Hrun) |].
  destruct (success r); cbn; split; lia.
Qed.

End RepoClonerContract.

Lemma cloneRepo_counts_every_branch_witness :
  exists r w',
    cloneRepo Ex.no_git_two_branches "u" Ex.app "/out" Ex.blank = (Val r, w')
    /\ successfulBranches r + failedBranches r = 2
    /\ success r = (0 <? successfulBranches r).
Proof.
  destruct (cloneRepo_counts_every_branch Ex.no_git_two_branches "u" Ex.app
              "/out" ["main"; "dev"] (0, 2) Ex.blank
              (snd (ensure_dir Ex.no_git_two_branches "/out/app" Ex.blank))
              (snd (fetchBranches Ex.no_git_two_branches "u" "app"
                      (snd (ensure_dir Ex.no_git_two_branches "/out/app"
                              Ex.blank))))
              (snd (cloneRepo_branches Ex.no_git_two_branches "u" Ex.app
                      "/out/app" ["main"; "dev"] 0 0
                      (snd (fetchBranches Ex.no_git_two_branches "u" "app"
                              (snd (ensure_dir Ex.no_git_two_branches
                                      "/out/app" Ex.blank)))))))
    as (r & w' & Hrun & Hsum & Hflag & _).
  - vm_compute. reflexivity.
  - vm_compute. reflexivity.
  - discriminate.
  - vm_compute. reflexivity.
  - intros _. reflexivity.
  - exists r, w'. auto.
Defined.



(** C10 as stated fails. The branch loop completes without an exception,
    with no success and two failures; the removal of the repository
    directory that follows it throws, and the result is that of the
    [catch], whose counts add up to 1 for 2 branches. *)
Lemma cloneRepo_counts_lost_after_loop :
  fst (cloneRepo_branches Ex.stuck_no_git "u" Ex.app "/out/app"
         ["main"; "dev"] 0 0
         (snd (fetchBranches Ex.stuck_no_git "u" "app"
                 (snd (ensure_dir Ex.stuck_no_git "/out/app" Ex.blank)))))
  = Val (0, 2)
  /\ fst (cloneRepo Ex.stuck_no_git "u" Ex.app "/out" Ex.blank)
     = Val (mkResult false 0 1)
  /\ successfulBranches (mkResult false 0 1) + failedBranches (mkResult false 0 1)
     <> length ["main"; "dev"].
Proof. repeat split; [vm_compute; reflexivity.. | cbn; lia]. Qed.

(** C4 as stated fails. Every clone of the one branch of [app] fails, so
    [cloneRepo] returns [{ success: false, successfulBranches: 0,
    failedBranches: 1 }]; the iteration of the orchestrator then counts a
    failed repository but leaves the total of failed branches at 0, not 1. *)
Lemma main_step_drops_counts_of_failed_repo :
  fst (cloneRepo Ex.no_git "u" Ex.app "/out" Ex.blank)
  = Val (mkResult false 0 1)
  /\ fst (main_step Ex.no_git true "u" "/out" (mkTotals 0 0 0 0) Ex.app
            Ex.blank)
     = Val (mkTotals 0 1 0 0)
  /\ totalFailedBranches (mkTotals 0 1 0 0)
     <> totalFailedBranches (mkTotals 0 0 0 0)
        + failedBranches (mkResult false 0 1).
Proof. repeat split; [vm_compute; reflexivity.. | cbn; lia]. Qed.

(** ** The root cloner *)

Section RootCloner.

Variable E : Env.
Variable username : string.
Variable repo : Repository.
Variable outputDir : string.

Local Abbreviation repoPath := (path_join outputDir (name repo)).
Local Abbreviation url := (cloneUrl E username repo).

(** C3, as the code has it. When the target path exists at the call,
    [cloneRootRepo] does not skip: it creates no directory and attempts the
    shallow clone into the existing path, once; it returns success exactly
    when that clone succeeds, and the clone is the one event added to the
    history. *)
Theorem cloneRootRepo_existing_target (w : World) :
  repoPath ∈ fs w ->
  exists w',
    cloneRootRepo E username repo outputDir w
    = (Val (mkRootResult
              (match git_clone E (now w) url repoPath ["--depth"; "1"] with
               | Cloned _ => true
               | CloneFailed _ => false
               end)), w')
    /\ trace w' = (trace w ++ [EvClone url repoPath ["--depth"; "1"]])%list.
Proof.
  intros Hin.
  unfold cloneRootRepo, ensure_dir, try_catch, bind, existsSync.
  rewrite bool_decide_eq_true_2 by exact Hin. cbn [negb]. unfold ret.
  unfold git_clone_into.
  destruct (git_clone E (now w) url repoPath ["--depth"; "1"])
    as [entries | leftover].
  - eexists. split; reflexivity.
  - destruct leftover; eexists; split; reflexivity.
Qed.

End RootCloner.

Lemma cloneRootRepo_existing_target_witness :
  exists w',
    cloneRootRepo Ex.healthy "u" Ex.app "/out" Ex.with_app_dir
    = (Val (mkRootResult true), w')
    /\ trace w'
       = [EvClone "https://github.com/u/app.git" "/out/app" ["--depth"; "1"]].
Proof.
  apply (cloneRootRepo_existing_target Ex.healthy "u" Ex.app "/out"
           Ex.with_app_dir).
  apply (bool_decide_unpack _); vm_compute; exact I.
Defined.

(** C3 as stated fails. The target [/out/app] is on disk, and
    [cloneRootRepo] still runs [git.clone] into it and reports success. *)
Lemma cloneRootRepo_clones_into_existing_target :
  fst (existsSync "/out/app" Ex.with_app_dir) = Val true
  /\ fst (cloneRootRepo Ex.healthy "u" Ex.app "/out" Ex.with_app_dir)
     = Val (mkRootResult true)
  /\ trace (snd (cloneRootRepo Ex.healthy "u" Ex.app "/out" Ex.with_app_dir))
     = [EvClone "https://github.com/u/app.git" "/out/app" ["--depth"; "1"]].
Proof. repeat split; vm_compute; reflexivity. Qed.

(** ** The paged lister *)

Section PagedLister.

Variable E : Env.
Variable username : string.

Lemma extend_extend (l1 l2 : list Event) (w : World) :
  extend l2 (extend l1 w) = extend (l1 ++ l2) w.
Proof. unfold extend. cbn. now rewrite app_assoc. Qed.

Lemma now_extend (l : list Event) (w : World) :
  now (extend l w) = now w + length l.
Proof. unfold now, extend. cbn. now rewrite length_app. Qed.

Lemma length_attempts_from (req : Event) (k : nat) :
  forall n,
    length (flat_map (fun j => [req; EvDelay (1000 * (j + 1))]) (seq n k))
    = 2 * k.
Proof.
  induction k as [|k IH]; intros n; [reflexivity |].
  cbn [seq flat_map]. rewrite length_app, IH. cbn [length]. lia.
Qed.

(** One iteration of the retry loop, by the answer of the endpoint. *)
Lemma fetchAllRepos_retry_step (fuel : nat) (repos : list Repository)
    (page retryCount : nat) (w : World) :
  retryCount < maxRetries ->
  fetchAllRepos_retry E (S fuel) username repos page retryCount w
  = let w1 := log_event (EvGetRepos username page) w in
    match listing_api E (now w) username page with
    | inr data =>
        if length data =? 0 then (Val (Return repos), w1)
        else (Val (Break ((repos ++ data)%list, page + 1)), w1)
    | inl e =>
        if bool_decide (status_of e = Some 403) then (Exit 1, w1)
        else if retryCount + 1 =? maxRetries then (Val (Return repos), w1)
        else fetchAllRepos_retry E fuel username repos page (retryCount + 1)
               (log_event (EvDelay (1000 * (retryCount + 1))) w1)
    end.
Proof.
  intros Hlt. cbn [fetchAllRepos_retry].
  apply Nat.ltb_lt in Hlt as ->.
  unfold bind, try_catch, axios_get_repos, ret, delay, process_exit.
  cbn zeta.
  destruct (listing_api E (now w) username page) as [e | data].
  - destruct (bool_decide (status_of e = Some 403)); [reflexivity |].
    destruct (retryCount + 1 =? maxRetries); reflexivity.
  - destruct (length data =? 0); reflexivity.
Qed.

(** A page answered after [k] transient errors. *)
Lemma fetchAllRepos_retry_served (repos data : list Repository) (page : nat)
    (k : nat) :
  forall (fuel retryCount : nat) (w : World),
    retryCount + k < maxRetries ->
    k < fuel ->
    (forall j, j < k ->
       transient (listing_api E (now w + 2 * j) username page)) ->
    listing_api E (now w + 2 * k) username page = inr data ->
    fetchAllRepos_retry E fuel username repos page retryCount w
    = (Val (if length data =? 0 then Return repos
            else Break ((repos ++ data)%list, page + 1)),
       extend (flat_map (fun j => [EvGetRepos username page;
                                   EvDelay (1000 * (j + 1))])
                 (seq retryCount k)
               ++ [EvGetRepos username page]) w).
Proof.
  induction k as [|k IH]; intros fuel retryCount w Hrc Hfuel Hfail Hok;
    (destruct fuel as [|fuel]; [lia |]);
    rewrite fetchAllRepos_retry_step by lia; cbn zeta.
  - replace (now w + 2 * 0) with (now w) in Hok by lia. rewrite Hok.
    destruct (length data =? 0); reflexivity.
  - pose proof (Hfail 0 ltac:(lia)) as H0.
    replace (now w + 2 * 0) with (now w) in H0 by lia.
    destruct (listing_api E (now w) username page) as [e |]; [| contradiction].
    cbn in H0. rewrite bool_decide_eq_false_2 by exact H0.
    assert ((retryCount + 1 =? maxRetries) = false) as ->
      by (apply Nat.eqb_neq; lia).
    rewrite (IH fuel (retryCount + 1)).
    + f_equal. unfold extend, log_event. cbn [fs trace seq flat_map].
      f_equal. rewrite <- !app_assoc. cbn [app].
      replace (S retryCount) with (retryCount + 1) by lia. reflexivity.
    + lia.
    + lia.
    + intros j Hj. rewrite !now_log.
      replace (S (S (now w)) + 2 * j) with (now w + 2 * S j) by lia.
      apply Hfail. lia.
    + rewrite !now_log.
      replace (S (S (now w)) + 2 * k) with (now w + 2 * S k) by lia.
      exact Hok.
Qed.

(** The page loop along a schedule that ends with an empty page. *)
Lemma fetchAllRepos_pages_served (sched : list (nat * list Repository)) :
  forall (repos : list Repository) (page : nat) (w : World) (fuel k : nat),
    Forall (fun p => snd p <> []) sched ->
    served E username (now w) page (sched ++ [(k, [])]) ->
    length sched < fuel ->
    fetchAllRepos_pages E fuel username repos page w
    = (Val (repos ++ concat (map snd sched))%list,
       extend (schedule_trace username page (sched ++ [(k, [])])) w).
Proof.
  induction sched as [|[k0 data] rest IH];
    intros repos page w fuel k Hne Hserved Hfuel;
    (destruct fuel as [|fuel]; [cbn in Hfuel; lia |]);
    cbn [fetchAllRepos_pages]; unfold bind at 1.
  - destruct Hserved as (Hk & Hfail & Hok & _).
    rewrite (fetchAllRepos_retry_served repos [] page k)
      by (unfold maxRetries; auto; lia).
    cbn [length Nat.eqb map concat schedule_trace app]. unfold ret.
    now rewrite !app_nil_r.
  - cbn [app served] in Hserved.
    destruct Hserved as (Hk & Hfail & Hok & Hrest).
    apply Forall_cons in Hne as [Hdata Hne]. cbn [snd] in Hdata.
    rewrite (fetchAllRepos_retry_served repos data page k0)
      by (unfold maxRetries; auto; lia).
    assert ((length data =? 0) = false) as ->
      by (destruct data; [contradiction | reflexivity]).
    rewrite (IH _ _ _ fuel k).
    + rewrite extend_extend. cbn [map concat schedule_trace app snd].
      unfold failed_attempts. rewrite <- !app_assoc. reflexivity.
    + exact Hne.
    + rewrite now_extend, length_app, length_attempts_from. cbn [length].
      replace (now w + (2 * k0 + 1)) with (now w + 2 * k0 + 1) by lia.
      exact Hrest.
    + cbn in Hfuel. lia.
Qed.

Lemma schedule_trace_pages (sched : list (nat * list Repository)) :
  forall page, pages_up_to (page + length sched - 1)
                 (schedule_trace username page sched).
Proof.
  unfold pages_up_to.
  induction sched as [|[k data] rest IH]; intros page; [constructor |].
  cbn [schedule_trace length]. rewrite !Forall_app. split; [| split].
  - unfold failed_attempts. apply Forall_flat_map, Forall_forall.
    intros j _. repeat constructor. lia.
  - repeat constructor. lia.
  - eapply Forall_impl; [apply IH |]. intros [] H; cbn in *; auto. lia.
Qed.

Lemma schedule_trace_last (sched : list (nat * list Repository)) (k : nat)
    (data : list Repository) :
  forall page,
    last (schedule_trace username page (sched ++ [(k, data)]))
    = Some (EvGetRepos username (page + length sched)).
Proof.
  induction sched as [|[k0 d0] rest IH]; intros page.
  - cbn [app schedule_trace length]. rewrite last_snoc.
    do 2 f_equal. lia.
  - cbn [app schedule_trace length]. rewrite last_app, last_cons, IH.
    do 2 f_equal. lia.
Qed.

(** C5. Let the endpoint serve the non-empty pages of [sched], in order from
    page 1, and then an empty page, each possibly after fewer than three
    transient errors.  Then [fetchAllRepos] returns the concatenation of
    the pages in that order; its requests are those of the schedule, which
    ask for no page beyond the empty one, and the request answered by the
    empty page is the last thing it does. *)
Theorem fetchAllRepos_pagination (sched : list (nat * list Repository))
    (k fuel : nat) (w : World) :
  Forall (fun p => snd p <> []) sched ->
  served E username (now w) 1 (sched ++ [(k, [])]) ->
  length sched < fuel ->
  exists w',
    fetchAllRepos E fuel username w = (Val (concat (map snd sched)), w')
    /\ w' = extend (schedule_trace username 1 (sched ++ [(k, [])])) w
    /\ pages_up_to (length sched + 1)
         (schedule_trace username 1 (sched ++ [(k, [])]))
    /\ last (trace w') = Some (EvGetRepos username (length sched + 1)).
Proof.
  intros Hne Hserved Hfuel. eexists. split; [| split; [reflexivity |]].
  - unfold fetchAllRepos.
    now rewrite (fetchAllRepos_pages_served sched [] 1 w fuel k).
  - split.
    + pose proof (schedule_trace_pages (sched ++ [(k, [])]) 1) as H.
      rewrite length_app in H. cbn [length] in H.
      replace (1 + (length sched + 1) - 1) with (length sched + 1) in H by lia.
      exact H.
    + unfold extend. cbn [trace]. rewrite last_app, schedule_trace_last.
      do 2 f_equal. lia.
Qed.

End PagedLister.

Lemma fetchAllRepos_pagination_witness :
  exists w',
    fetchAllRepos Ex.flaky_listing 2 "u" Ex.blank
    = (Val [mkRepo "lib" true; mkRepo "app" false], w')
    /\ last (trace w') = Some (EvGetRepos "u" 2).
Proof.
  destruct (fetchAllRepos_pagination Ex.flaky_listing "u"
              [(1, [mkRepo "lib" true; mkRepo "app" false])] 0 2 Ex.blank)
    as (w' & Hrun & _ & _ & Hlast).
  - repeat constructor. discriminate.
  - cbn [app served].
    split; [lia |].
    split; [intros [|j] Hj; [cbn; discriminate | lia] |].
    split; [reflexivity |].
    split; [lia |].
    split; [intros j Hj; lia |].
    split; [reflexivity | exact I].
  - cbn. lia.
  - exists w'. split; [exact Hrun | exact Hlast].
Defined.

(** * Further properties of the script *)

(** ** Branch directory names *)

Lemma append_cons (c : ascii) (s1 s2 : string) :
  (String c s1 ++ s2)%string = String c (s1 ++ s2)%string.
Proof. reflexivity. Qed.

Lemma append_empty (s : string) : ("" ++ s)%string = s.
Proof. reflexivity. Qed.

Lemma count_char_append (c : ascii) (s1 s2 : string) :
  count_char c (s1 ++ s2)%string = count_char c s1 + count_char c s2.
Proof.
  induction s1 as [|d s1 IH]; [reflexivity |].
  rewrite append_cons. cbn [count_char]. rewrite IH. lia.
Qed.

Lemma branchDirName_no_slash (branch : string) :
  count_char "/" branch = 0 -> branchDirName branch = branch.
Proof.
  induction branch as [|c s IH]; intros Hnone; [reflexivity |].
  rewrite branchDirName_cons. cbn [count_char] in Hnone.
  rewrite Ascii.eqb_sym in Hnone.
  destruct (Ascii.eqb c "/"); [discriminate |].
  now rewrite IH.
Qed.

Lemma branchDirName_split (s1 s2 : string) :
  count_char "/" s1 = 0 ->
  branchDirName (s1 ++ "/" ++ s2)%string = (s1 ++ "-" ++ s2)%string.
Proof.
  induction s1 as [|c s IH]; intros Hnone.
  - rewrite append_empty, append_cons. now rewrite branchDirName_cons.
  - rewrite append_cons, branchDirName_cons.
    cbn [count_char] in Hnone. rewrite Ascii.eqb_sym in Hnone.
    destruct (Ascii.eqb c "/"); [discriminate |].
    now rewrite IH.
Qed.

(** The segment is the name with its first slash turned into a hyphen:
    what stands before the first slash and all that follows it are copied. *)
Theorem branchDirName_first_slash (s1 s2 : string) :
  count_char "/" s1 = 0 ->
  branchDirName (s1 ++ "/" ++ s2)%string = (s1 ++ "-" ++ s2)%string.
Proof. apply branchDirName_split. Qed.

Lemma branchDirName_first_slash_witness :
  branchDirName "release/1.0/hotfix" = "release-1.0/hotfix".
Proof.
  exact (branchDirName_first_slash "release" "1.0/hotfix" eq_refl).
Defined.

(** The substitution keeps the length of the name. *)
Theorem branchDirName_length (branch : string) :
  String.length (branchDirName branch) = String.length branch.
Proof.
  induction branch as [|c s IH]; [reflexivity |].
  rewrite branchDirName_cons.
  destruct (Ascii.eqb c "/"); cbn [String.length]; congruence.
Qed.

(** Two different branch names can get the same directory: [s1/s2] and
    [s1-s2], for any [s1] and [s2] without a slash. *)
Theorem branchDirName_collision (s1 s2 : string) :
  count_char "/" s1 = 0 ->
  count_char "/" s2 = 0 ->
  branchDirName (s1 ++ "/" ++ s2)%string = branchDirName (s1 ++ "-" ++ s2)%string
  /\ (s1 ++ "/" ++ s2)%string <> (s1 ++ "-" ++ s2)%string.
Proof.
  intros H1 H2. split.
  - rewrite branchDirName_split by exact H1.
    symmetry. apply branchDirName_no_slash.
    rewrite !count_char_append, H1, H2. reflexivity.
  - intros Heq. apply (f_equal (count_char "/")) in Heq.
    rewrite !count_char_append, H1, H2 in Heq. discriminate.
Qed.

Lemma branchDirName_collision_witness :
  branchDirName "fix/login" = branchDirName "fix-login"
  /\ "fix/login" <> "fix-login".
Proof.
  exact (branchDirName_collision "fix" "login" eq_refl eq_refl).
Defined.

(** ** The paged lister: fatal and degraded exits *)

Section PagedListerExits.

Variable E : Env.
Variable username : string.

Local Abbreviation req page := (EvGetRepos username page).
Local Abbreviation retries_from page retryCount k :=
  (flat_map (fun j => [EvGetRepos username page; EvDelay (1000 * (j + 1))])
     (seq retryCount k)).

(** A page refused with 403 after [k] transient errors. *)
Lemma fetchAllRepos_retry_refused (repos : list Repository) (page k : nat) :
  forall (fuel retryCount : nat) (w : World),
    retryCount + k < maxRetries ->
    k < fuel ->
    (forall j, j < k ->
       transient (listing_api E (now w + 2 * j) username page)) ->
    rate_limited (listing_api E (now w + 2 * k) username page) ->
    fetchAllRepos_retry E fuel username repos page retryCount w
    = (Exit 1, extend (retries_from page retryCount k ++ [req page]) w).
Proof.
  induction k as [|k IH]; intros fuel retryCount w Hrc Hfuel Hfail Hlast;
    (destruct fuel as [|fuel]; [lia |]);
    rewrite fetchAllRepos_retry_step by lia; cbn zeta.
  - replace (now w + 2 * 0) with (now w) in Hlast by lia.
    destruct (listing_api E (now w) username page) as [e |]; [| contradiction].
    cbn in Hlast. rewrite bool_decide_eq_true_2 by exact Hlast. reflexivity.
  - pose proof (Hfail 0 ltac:(lia)) as H0.
    replace (now w + 2 * 0) with (now w) in H0 by lia.
    destruct (listing_api E (now w) username page) as [e |]; [| contradiction].
    cbn in H0. rewrite bool_decide_eq_false_2 by exact H0.
    assert ((retryCount + 1 =? maxRetries) = false) as ->
      by (apply Nat.eqb_neq; lia).
    rewrite (IH fuel (retryCount + 1)).
    + f_equal. unfold extend, log_event. cbn [fs trace seq flat_map].
      f_equal. rewrite <- !app_assoc. cbn [app].
      replace (S retryCount) with (retryCount + 1) by lia. reflexivity.
    + lia.
    + lia.
    + intros j Hj. rewrite !now_log.
      replace (S (S (now w)) + 2 * j) with (now w + 2 * S j) by lia.
      apply Hfail. lia.
    + rewrite !now_log.
      replace (S (S (now w)) + 2 * k) with (now w + 2 * S k) by lia.
      exact Hlast.
Qed.

(** A page whose remaining [S k] attempts all fail. *)
Lemma fetchAllRepos_retry_exhausted (repos : list Repository) (page k : nat) :
  forall (fuel retryCount : nat) (w : World),
    retryCount + S k = maxRetries ->
    k < fuel ->
    (forall j, j < S k ->
       transient (listing_api E (now w + 2 * j) username page)) ->
    fetchAllRepos_retry E fuel username repos page retryCount w
    = (Val (Return repos),
       extend (retries_from page retryCount k ++ [req page]) w).
Proof.
  induction k as [|k IH]; intros fuel retryCount w Hrc Hfuel Hfail;
    (destruct fuel as [|fuel]; [lia |]);
    rewrite fetchAllRepos_retry_step by lia; cbn zeta;
    pose proof (Hfail 0 ltac:(lia)) as H0;
    replace (now w + 2 * 0) with (now w) in H0 by lia;
    (destruct (listing_api E (now w) username page) as [e |];
       [| contradiction]);
    cbn in H0; rewrite bool_decide_eq_false_2 by exact H0.
  - assert ((retryCount + 1 =? maxRetries) = true) as ->
      by (apply Nat.eqb_eq; lia).
    reflexivity.
  - assert ((retryCount + 1 =? maxRetries) = false) as ->
      by (apply Nat.eqb_neq; lia).
    rewrite (IH fuel (retryCount + 1)).
    + f_equal. unfold extend, log_event. cbn [fs trace seq flat_map].
      f_equal. rewrite <- !app_assoc. cbn [app].
      replace (S retryCount) with (retryCount + 1) by lia. reflexivity.
    + lia.
    + lia.
    + intros j Hj. rewrite !now_log.
      replace (S (S (now w)) + 2 * j) with (now w + 2 * S j) by lia.
      apply Hfail. lia.
Qed.

(** The page loop along a schedule of non-empty pages. *)
Lemma fetchAllRepos_pages_prefix (sched : list (nat * list Repository)) :
  forall (repos : list Repository) (page : nat) (w : World) (fuel : nat),
    Forall (fun p => snd p <> []) sched ->
    served E username (now w) page sched ->
    fetchAllRepos_pages E (length sched + fuel) username repos page w
    = fetchAllRepos_pages E fuel username
        (repos ++ concat (map snd sched))%list (page + length sched)
        (extend (schedule_trace username page sched) w).
Proof.
  induction sched as [|[k data] rest IH]; intros repos page w fuel Hne Hserved.
  - cbn [length Nat.add map concat schedule_trace].
    rewrite app_nil_r, Nat.add_0_r.
    unfold extend. rewrite app_nil_r. now destruct w.
  - cbn [served] in Hserved. destruct Hserved as (Hk & Hfail & Hok & Hrest).
    apply Forall_cons in Hne as [Hdata Hne]. cbn [snd] in Hdata.
    cbn [length Nat.add fetchAllRepos_pages]. unfold bind at 1.
    rewrite (fetchAllRepos_retry_served E username repos data page k)
      by (unfold maxRetries; auto; lia).
    assert ((length data =? 0) = false) as ->
      by (destruct data; [contradiction | reflexivity]).
    rewrite IH.
    + rewrite extend_extend. cbn [map concat schedule_trace snd].
      unfold failed_attempts. rewrite <- !app_assoc.
      replace (page + 1 + length rest) with (page + S (length rest)) by lia.
      reflexivity.
    + exact Hne.
    + rewrite now_extend, length_app, length_attempts_from. cbn [length].
      replace (now w + (2 * k + 1)) with (now w + 2 * k + 1) by lia.
      exact Hrest.
Qed.

(** A 403 from the listing endpoint is fatal. After any number of pages
    served, a page refused with 403 (possibly after transient errors)
    makes [fetchAllRepos] end the process with exit code 1; the refused
    request is the last event and the pages fetched so far are lost. *)
Theorem fetchAllRepos_rate_limit_is_fatal
    (sched : list (nat * list Repository)) (k fuel : nat) (w : World) :
  Forall (fun p => snd p <> []) sched ->
  served E username (now w) 1 sched ->
  refused E username (now w + length (schedule_trace username 1 sched))
    (length sched + 1) k ->
  length sched < fuel ->
  fetchAllRepos E fuel username w
  = (Exit 1,
     extend (schedule_trace username 1 sched
             ++ failed_attempts (req (length sched + 1)) k
             ++ [req (length sched + 1)]) w).
Proof.
  intros Hne Hserved (Hk & Hfail & Hlast) Hfuel.
  unfold fetchAllRepos.
  replace fuel with (length sched + S (fuel - length sched - 1)) by lia.
  rewrite fetchAllRepos_pages_prefix by assumption.
  cbn [fetchAllRepos_pages]. unfold bind.
  rewrite (fetchAllRepos_retry_refused _ _ k).
  - rewrite extend_extend. unfold failed_attempts.
    replace (1 + length sched) with (length sched + 1) by lia. reflexivity.
  - unfold maxRetries. lia.
  - unfold maxRetries. lia.
  - intros j Hj. rewrite now_extend.
    replace (1 + length sched) with (length sched + 1) by lia. now apply Hfail.
  - rewrite now_extend.
    replace (1 + length sched) with (length sched + 1) by lia. exact Hlast.
Qed.

(** Three transient errors on a page end the listing quietly: after any
    number of pages served, [fetchAllRepos] returns the pages it has, with
    back-offs of 1000 and 2000 ms between the three attempts and none
    after the last. *)
Theorem fetchAllRepos_partial_result
    (sched : list (nat * list Repository)) (fuel : nat) (w : World) :
  Forall (fun p => snd p <> []) sched ->
  served E username (now w) 1 sched ->
  unavailable E username (now w + length (schedule_trace username 1 sched))
    (length sched + 1) ->
  length sched < fuel ->
  fetchAllRepos E fuel username w
  = (Val (concat (map snd sched)),
     extend (schedule_trace username 1 sched
             ++ [req (length sched + 1); EvDelay 1000;
                 req (length sched + 1); EvDelay 2000;
                 req (length sched + 1)]) w).
Proof.
  intros Hne Hserved Hfail Hfuel.
  unfold fetchAllRepos.
  replace fuel with (length sched + S (fuel - length sched - 1)) by lia.
  rewrite fetchAllRepos_pages_prefix by assumption.
  cbn [fetchAllRepos_pages]. unfold bind.
  rewrite (fetchAllRepos_retry_exhausted _ _ 2).
  - rewrite extend_extend. unfold ret. cbn [app].
    replace (1 + length sched) with (length sched + 1) by lia. reflexivity.
  - unfold maxRetries. lia.
  - unfold maxRetries. lia.
  - intros j Hj. rewrite now_extend.
    replace (1 + length sched) with (length sched + 1) by lia. now apply Hfail.
Qed.

End PagedListerExits.

Lemma fetchAllRepos_rate_limit_is_fatal_witness :
  fetchAllRepos Ex2.rate_limited_second_page 2 "u" Ex.blank
  = (Exit 1, extend [EvGetRepos "u" 1; EvGetRepos "u" 2] Ex.blank).
Proof.
  apply (fetchAllRepos_rate_limit_is_fatal Ex2.rate_limited_second_page "u"
           [(0, [mkRepo "lib" true; mkRepo "app" false])] 0 2 Ex.blank).
  - repeat constructor. discriminate.
  - cbn [served].
    split; [lia |]. split; [intros j Hj; lia |].
    split; [reflexivity | exact I].
  - split; [lia |]. split; [intros j Hj; lia | reflexivity].
  - cbn. lia.
Defined.

Lemma fetchAllRepos_partial_result_witness :
  fetchAllRepos Ex.broken_second_page 2 "u" Ex.blank
  = (Val [mkRepo "lib" true; mkRepo "app" false],
     extend [EvGetRepos "u" 1; EvGetRepos "u" 2; EvDelay 1000;
             EvGetRepos "u" 2; EvDelay 2000; EvGetRepos "u" 2] Ex.blank).
Proof.
  apply (fetchAllRepos_partial_result Ex.broken_second_page "u"
           [(0, [mkRepo "lib" true; mkRepo "app" false])] 2 Ex.blank).
  - repeat constructor. discriminate.
  - cbn [served].
    split; [lia |]. split; [intros j Hj; lia |].
    split; [reflexivity | exact I].
  - intros j Hj. cbn. discriminate.
  - cbn. lia.
Defined.

Section PagedListerEffects.

Variable E : Env.
Variable username : string.

Lemma extend_nil (w : World) : extend [] w = w.
Proof. destruct w as [f t]. unfold extend. cbn. now rewrite app_nil_r. Qed.

Lemma log_event_extend (ev : Event) (l : list Event) (w : World) :
  log_event ev (extend l w) = extend (l ++ [ev]) w.
Proof. unfold log_event, extend. cbn. now rewrite app_assoc. Qed.

(** What the retry loop of one page can do to the world. *)
Lemma fetchAllRepos_retry_effects (fuel : nat) :
  forall (repos : list Repository) (page retryCount : nat) (w : World),
  exists l,
    snd (fetchAllRepos_retry E fuel username repos page retryCount w)
    = extend l w
    /\ Forall listing_event l
    /\ exits_only_with_1
         (fst (fetchAllRepos_retry E fuel username repos page retryCount w)).
Proof.
  induction fuel as [|fuel IH]; intros repos page retryCount w.
  { exists []. cbn. rewrite extend_nil. auto. }
  destruct (retryCount <? maxRetries) eqn:Hlt.
  2: { exists []. cbn [fetchAllRepos_retry]. rewrite Hlt. cbn.
       rewrite extend_nil. auto. }
  apply Nat.ltb_lt in Hlt. rewrite fetchAllRepos_retry_step by exact Hlt.
  cbn zeta.
  assert (Forall listing_event [EvGetRepos username page]) as Hone
    by (repeat constructor).
  destruct (listing_api E (now w) username page) as [e | data].
  2: { exists [EvGetRepos username page].
       destruct (length data =? 0); cbn; auto. }
  destruct (bool_decide (status_of e = Some 403)).
  { exists [EvGetRepos username page]. cbn. auto. }
  destruct (retryCount + 1 =? maxRetries).
  { exists [EvGetRepos username page]. cbn. auto. }
  destruct (IH repos page (retryCount + 1)
              (log_event (EvDelay (1000 * (retryCount + 1)))
                 (log_event (EvGetRepos username page) w)))
    as (l & Hw & Hl & Hout).
  exists ([EvGetRepos username page; EvDelay (1000 * (retryCount + 1))]
            ++ l)%list.
  split; [| split; [| exact Hout]].
  - rewrite Hw. unfold extend, log_event. cbn [fs trace].
    now rewrite <- !app_assoc.
  - apply Forall_app. split; [repeat constructor | exact Hl].
Qed.

Lemma fetchAllRepos_pages_effects (fuel : nat) :
  forall (repos : list Repository) (page : nat) (w : World),
  exists l,
    snd (fetchAllRepos_pages E fuel username repos page w) = extend l w
    /\ Forall listing_event l
    /\ exits_only_with_1
         (fst (fetchAllRepos_pages E fuel username repos page w)).
Proof.
  induction fuel as [|fuel IH]; intros repos page w.
  { exists []. cbn. rewrite extend_nil. auto. }
  cbn [fetchAllRepos_pages]. unfold bind.
  destruct (fetchAllRepos_retry_effects maxRetries repos page 0 w)
    as (l1 & Hw1 & Hl1 & Hout1).
  destruct (fetchAllRepos_retry E maxRetries username repos page 0 w)
    as [o w1].
  cbn [fst snd] in Hw1, Hout1. subst w1.
  destruct o as [[[repos' page'] | [repos' page'] | v] | e | c |];
    cbn in Hout1; try contradiction;
    try (exists l1; cbn; now auto).
  all: destruct (IH repos' page' (extend l1 w)) as (l2 & Hw2 & Hl2 & Hout2);
    exists (l1 ++ l2)%list; rewrite Hw2, extend_extend;
    (split; [reflexivity |]); split; [apply Forall_app; auto | exact Hout2].
Qed.

(** Under a listing endpoint that always has another non-empty page,
    [fetchAllRepos] never returns: there is no cap on the number of pages. *)
Theorem fetchAllRepos_endless_listing :
  (forall t page, exists data,
      listing_api E t username page = inr data /\ data <> []) ->
  forall (fuel : nat) (w : World),
    fst (fetchAllRepos E fuel username w) = Diverge.
Proof.
  intros Hmore fuel. unfold fetchAllRepos. generalize (@nil Repository), 1.
  induction fuel as [|fuel IH]; intros repos page w; [reflexivity |].
  cbn [fetchAllRepos_pages]. unfold bind.
  change (fetchAllRepos_retry E maxRetries) with (fetchAllRepos_retry E 3).
  rewrite fetchAllRepos_retry_step by (unfold maxRetries; lia). cbn zeta.
  destruct (Hmore (now w) page) as (data & -> & Hdata).
  assert ((length data =? 0) = false) as ->
    by (destruct data; [contradiction | reflexivity]).
  apply IH.
Qed.

(** [fetchAllRepos] never throws and never touches the disk: whatever the
    remote does, it ends by returning, by exit code 1 or by running on, and
    all it adds to the history are listing requests and delays. *)
Theorem fetchAllRepos_effects (fuel : nat) (w : World) :
  exists l,
    snd (fetchAllRepos E fuel username w) = extend l w
    /\ Forall listing_event l
    /\ exits_only_with_1 (fst (fetchAllRepos E fuel username w)).
Proof. apply fetchAllRepos_pages_effects. Qed.

End PagedListerEffects.

Lemma fetchAllRepos_endless_listing_witness :
  fst (fetchAllRepos Ex2.endless 50 "u" Ex.blank) = Diverge.
Proof.
  apply (fetchAllRepos_endless_listing Ex2.endless "u").
  intros t page. exists [mkRepo "app" false]. split; [reflexivity | discriminate].
Defined.

(** ** Paths and directory listings *)

Lemma append_assoc (s1 s2 s3 : string) :
  ((s1 ++ s2) ++ s3)%string = (s1 ++ (s2 ++ s3))%string.
Proof.
  induction s1 as [|c s1 IH]; [reflexivity |].
  rewrite !append_cons. now rewrite IH.
Qed.

Lemma length_append (s1 s2 : string) :
  String.length (s1 ++ s2)%string = String.length s1 + String.length s2.
Proof.
  induction s1 as [|c s1 IH]; [reflexivity |].
  rewrite append_cons. cbn [String.length]. now rewrite IH.
Qed.

Lemma prefix_append (s1 s2 : string) :
  String.prefix s1 (s1 ++ s2)%string = true.
Proof.
  induction s1 as [|c s1 IH]; [apply prefix_empty |].
  rewrite append_cons. cbn [String.prefix].
  destruct (ascii_dec c c); [exact IH | contradiction].
Qed.

Lemma prefix_length (s1 s2 : string) :
  String.prefix s1 s2 = true -> String.length s1 <= String.length s2.
Proof.
  revert s2. induction s1 as [|c s1 IH]; intros s2 H; [cbn; lia |].
  destruct s2 as [|d s2]; [discriminate |].
  cbn [String.prefix] in H. destruct (ascii_dec c d); [| discriminate].
  apply IH in H. cbn [String.length]. lia.
Qed.

Lemma substring_append_tail (s1 s2 : string) :
  substring (String.length s1) (String.length s2) (s1 ++ s2)%string = s2.
Proof.
  induction s1 as [|c s1 IH]; [apply substring_whole |].
  rewrite append_cons. exact IH.
Qed.

(** An entry checked out into [p] is a direct child of [p]. *)
Lemma child_name_path_join (p e : string) :
  index 0 "/" e = None -> child_name p (path_join p e) = Some e.
Proof.
  intros Hflat. unfold child_name, is_under, path_join.
  rewrite <- append_assoc, prefix_append.
  rewrite length_append, length_append. cbn [String.length].
  replace (String.length p + 1 + String.length e - (String.length p + 1))
    with (String.length e) by lia.
  replace (String.length p + 1) with (String.length (p ++ "/")%string)
    by (rewrite length_append; reflexivity).
  rewrite substring_append_tail. now rewrite Hflat.
Qed.

(** A directory is not below itself, nor below one of its children. *)
Lemma not_under_child (p d : string) :
  is_under (path_join p d) p = false.
Proof.
  unfold is_under, path_join.
  destruct (String.prefix ((p ++ "/" ++ d) ++ "/") p) eqn:H; [| reflexivity].
  apply prefix_length in H. rewrite !length_append in H.
  cbn [String.length] in H. lia.
Qed.

Lemma path_join_neq (p d : string) : p <> path_join p d.
Proof.
  unfold path_join. intros H. apply (f_equal String.length) in H.
  rewrite !length_append in H. cbn [String.length] in H. lia.
Qed.

Lemma in_checkout_entry (p e : string) (entries : list string)
    (f : gset string) :
  e ∈ entries -> path_join p e ∈ checkout p entries f.
Proof.
  intros H. unfold checkout. apply elem_of_union_l, elem_of_list_to_set.
  apply list_elem_of_fmap. eauto.
Qed.

(** A checked-out entry other than [.git] shows among the tracked entries
    of the clone. *)
Lemma tracked_entries_cloned (url p e : string) (args entries : list string)
    (w : World) :
  e ∈ entries ->
  e <> ".git" ->
  index 0 "/" e = None ->
  e ∈ tracked_entries p (cloned url p args entries w).
Proof.
  intros Hin Hne Hflat. unfold tracked_entries, cloned, listing.
  apply list_elem_of_In, filter_In. split.
  - apply list_elem_of_In, list_elem_of_omap. exists (path_join p e).
    split; [| now apply child_name_path_join].
    apply elem_of_elements. cbn [fs set_fs]. now apply in_checkout_entry.
  - apply negb_true_iff, String.eqb_neq. exact Hne.
Qed.

(** ** The branch cloner: retries, back-off and what it leaves alone *)

Section BranchClonerRetries.

Variable E : Env.
Variable username : string.
Variable repo : Repository.
Variables branch branchPath : string.

Local Abbreviation url := (cloneUrl E username repo).
Local Abbreviation args := (branch_clone_args branch).
Local Abbreviation attempts fuel retries attempt :=
  (cloneBranch_attempts E fuel username repo branch branchPath retries attempt).
Local Abbreviation failures attempt flags w :=
  (clone_failures E url branchPath args attempt flags w).
Local Abbreviation after_retries attempt flags w :=
  (retried_all url branchPath args attempt flags w).
Local Abbreviation after_cleanup leftover w :=
  (cleaned_up url branchPath args leftover w).

Lemma cleaned_up_absent (leftover : bool) (w : World) :
  branchPath ∉ fs w -> branchPath ∉ fs (after_cleanup leftover w).
Proof.
  intros Hnin. unfold cleaned_up. destruct leftover.
  - apply not_in_remove_tree.
  - exact Hnin.
Qed.

Lemma cleaned_up_kept (leftover : bool) (w : World) :
  kept_outside branchPath w (after_cleanup leftover w).
Proof.
  intros q Hq Hne Hout. unfold cleaned_up, failed_clone. destruct leftover.
  - cbn. apply in_remove_tree; auto using in_with_dir_old.
  - exact Hq.
Qed.

(** A failed clone whose clean-up goes through. *)
Lemma cloneBranch_attempt_failed (attempt retries : nat) (leftover : bool)
    (w : World) :
  branchPath ∉ fs w ->
  git_clone E (now w) url branchPath args = CloneFailed leftover ->
  (leftover = true ->
   rm_ok E (now (failed_clone url branchPath args leftover w)) branchPath
   = true) ->
  try_catch (cloneBranch_try E username repo branch branchPath)
    (cloneBranch_catch E branchPath attempt retries) w
  = backoff attempt retries (after_cleanup leftover w).
Proof.
  intros Hnin Hgit Hrm. unfold try_catch.
  rewrite cloneBranch_try_run, Hgit by exact Hnin.
  rewrite cloneBranch_catch_run. unfold cleaned_up, failed_clone.
  destruct leftover.
  - rewrite bool_decide_eq_true_2 by (cbn; apply in_with_dir).
    unfold failed_clone in Hrm. now rewrite (Hrm eq_refl).
  - now rewrite bool_decide_eq_false_2 by exact Hnin.
Qed.

(** The attempts of a list of failures are made one after the other. *)
Lemma cloneBranch_attempts_retried (retries : nat) (flags : list bool) :
  forall (attempt fuel : nat) (w : World),
    attempt + length flags <= retries ->
    branchPath ∉ fs w ->
    failures attempt flags w ->
    attempts (length flags + fuel) retries attempt w
    = attempts fuel retries (attempt + length flags)
        (after_retries attempt flags w)
    /\ (branchPath ∉ fs (after_retries attempt flags w))
    /\ kept_outside branchPath w (after_retries attempt flags w)
    /\ trace (after_retries attempt flags w)
       = (trace w ++ failures_trace url branchPath args attempt flags)%list.
Proof.
  induction flags as [|leftover rest IH]; intros attempt fuel w Hle Hnin Hfail.
  - cbn [length Nat.add retried_all failures_trace].
    rewrite Nat.add_0_r, app_nil_r. auto using kept_outside_refl.
  - cbn [clone_failures] in Hfail. destruct Hfail as (Hgit & Hrm & Hrest).
    cbn [length] in Hle.
    assert (branchPath ∉ fs (retried url branchPath args attempt leftover w))
      as Hnin1 by (apply cleaned_up_absent; exact Hnin).
    destruct (IH (attempt + 1) fuel
                (retried url branchPath args attempt leftover w))
      as (Hrec & Hnink & Hkeptk & Htracek); [lia | exact Hnin1 | exact Hrest |].
    cbn [length Nat.add retried_all cloneBranch_attempts].
    assert ((attempt <=? retries) = true) as -> by (apply Nat.leb_le; lia).
    unfold bind at 1.
    rewrite (cloneBranch_attempt_failed attempt retries leftover w Hnin Hgit Hrm).
    unfold backoff.
    assert ((attempt <? retries) = true) as -> by (apply Nat.ltb_lt; lia).
    change (log_event _ (after_cleanup leftover w))
      with (retried url branchPath args attempt leftover w).
    rewrite Hrec.
    replace (attempt + 1 + length rest) with (attempt + S (length rest)) by lia.
    split; [reflexivity |]. split; [exact Hnink |]. split.
    + eapply kept_outside_trans; [| exact Hkeptk].
      eapply kept_outside_trans;
        [apply cleaned_up_kept | apply kept_outside_log].
    + rewrite Htracek. cbn [failures_trace]. unfold retried, cleaned_up,
        failed_clone. destruct leftover; cbn; now rewrite <- !app_assoc.
Qed.

(** When every attempt fails and every clean-up goes through, [cloneBranch]
    gives up after as many clone commands as it has retries: it waits
    500 ms, 1000 ms, 2000 ms, ... between two of them and not after the
    last, removes what a failed clone left behind, and returns [false] in
    the world these steps lead to, where the target is absent and every
    other path is kept. *)
Theorem cloneBranch_gives_up (retries : option nat) (flags : list bool)
    (last : bool) (w : World) :
  S (length flags) = default 3 retries ->
  branchPath ∉ fs w ->
  failures 1 (flags ++ [last]) w ->
  cloneBranch E username repo branch branchPath retries w
  = (Val false, after_cleanup last (after_retries 1 flags w))
  /\ (branchPath ∉ fs (after_cleanup last (after_retries 1 flags w)))
  /\ kept_outside branchPath w (after_cleanup last (after_retries 1 flags w))
  /\ trace (after_cleanup last (after_retries 1 flags w))
     = (trace w ++ failures_trace url branchPath args 1 flags
          ++ EvClone url branchPath args
             :: (if last then [EvRm branchPath] else []))%list.
Proof.
  set (n := default 3 retries). intros Hn Hnin Hfail.
  assert (failures 1 flags w
          /\ git_clone E (now (after_retries 1 flags w)) url branchPath args
             = CloneFailed last
          /\ (last = true ->
              rm_ok E (now (failed_clone url branchPath args last
                              (after_retries 1 flags w))) branchPath = true))
    as (Hfirst & Hgit & Hrm).
  { clear Hn Hnin. revert w Hfail. generalize 1.
    induction flags as [|lo rest IH]; intros a w Hfail.
    - cbn in Hfail. cbn [retried_all clone_failures]. tauto.
    - cbn [app clone_failures] in Hfail.
      destruct Hfail as (H1 & H2 & H3).
      destruct (IH _ _ H3) as (H4 & H5 & H6).
      cbn [retried_all clone_failures]. tauto. }
  destruct (cloneBranch_attempts_retried n flags 1 2 w)
    as (Hrun & Hnink & Hkeptk & Htracek); [lia | exact Hnin | exact Hfirst |].
  rewrite cloneBranch_unfold. fold n.
  replace (S n) with (length flags + 2) by lia. rewrite Hrun.
  replace (1 + length flags) with n by lia.
  cbn [cloneBranch_attempts]. rewrite Nat.leb_refl. unfold bind.
  rewrite (cloneBranch_attempt_failed n n last _ Hnink Hgit Hrm).
  unfold backoff. rewrite Nat.ltb_irrefl. unfold ret.
  split; [reflexivity |]. split; [now apply cleaned_up_absent |]. split.
  - eapply kept_outside_trans; [exact Hkeptk | apply cleaned_up_kept].
  - unfold cleaned_up, failed_clone. destruct last; cbn;
      rewrite Htracek, <- !app_assoc; reflexivity.
Qed.

(** A clone that succeeds, at the first attempt or after failed ones that
    were cleaned up, and checks out an entry other than [.git] makes
    [cloneBranch] return [true] in the world [with_submodules] describes:
    [submoduleInit] is run, [submoduleUpdate] is run exactly when
    [submoduleInit] did not throw, and neither changes the result. The
    target and the entry are on disk. *)
Theorem cloneBranch_recovers (retries : option nat) (flags : list bool)
    (entries : list string) (e : string) (w : World) :
  length flags < default 3 retries ->
  branchPath ∉ fs w ->
  failures 1 flags w ->
  git_clone E (now (after_retries 1 flags w)) url branchPath args
  = Cloned entries ->
  e ∈ entries -> e <> ".git" -> index 0 "/" e = None ->
  cloneBranch E username repo branch branchPath retries w
  = (Val true,
     with_submodules E branchPath
       (cloned url branchPath args entries (after_retries 1 flags w)))
  /\ branchPath
     ∈ fs (with_submodules E branchPath
             (cloned url branchPath args entries (after_retries 1 flags w)))
  /\ path_join branchPath e
     ∈ fs (with_submodules E branchPath
             (cloned url branchPath args entries (after_retries 1 flags w))).
Proof.
  set (n := default 3 retries). intros Hk Hnin Hfail Hgit Hin Hne Hflat.
  destruct (cloneBranch_attempts_retried n flags 1 (S (n - length flags)) w)
    as (Hrun & Hnink & _ & _); [lia | exact Hnin | exact Hfail |].
  rewrite cloneBranch_unfold. fold n.
  replace (S n) with (length flags + S (n - length flags)) by lia.
  rewrite Hrun. cbn [cloneBranch_attempts].
  assert ((1 + length flags <=? n) = true) as -> by (apply Nat.leb_le; lia).
  unfold bind, try_catch.
  rewrite cloneBranch_try_run, Hgit by exact Hnink.
  pose proof (tracked_entries_cloned url branchPath e args entries
                (after_retries 1 flags w) Hin Hne Hflat) as Htracked.
  destruct (tracked_entries branchPath
              (cloned url branchPath args entries (after_retries 1 flags w)))
    as [|x l] eqn:Hlist; [now apply elem_of_nil in Htracked |].
  cbn [length Nat.eqb]. unfold ret. split; [reflexivity |].
  rewrite fs_with_submodules. cbn.
  split; [apply in_checkout | now apply in_checkout_entry].
Qed.

(** Whatever the remote and the disk do, [cloneBranch] returns or throws
    (it never exits and never loops for ever), runs no more clone commands
    than it has retries, and removes no path other than its target and what
    lies below it. *)
Theorem cloneBranch_effects (retries : option nat) (w : World) :
  exists o w' l,
    cloneBranch E username repo branch branchPath retries w = (o, w')
    /\ (forall code, o <> Exit code)
    /\ o <> Diverge
    /\ trace w' = (trace w ++ l)%list
    /\ clone_events l <= default 3 retries
    /\ kept_outside branchPath w w'.
Proof.
  destruct (cloneBranch_result E username repo branch branchPath retries w)
    as (o & w' & l & Hrun & Htr & Hn & Hkept & Hout).
  exists o, w', l. split; [exact Hrun |].
  repeat split; auto; destruct o; try contradiction; discriminate.
Qed.

(** [cloneBranch] ends in one of three ways. It returns [true], and the
    target is on disk, with an entry other than [.git] in it if this call
    cloned it. It returns [false], and, if it was allowed an attempt, no
    target is left on disk. Or it throws, and the error is the one of the
    disk, from a removal in the [catch] that did not go through, with the
    target still on disk. *)
Theorem cloneBranch_outcome (retries : option nat) (w : World) :
  exists o w',
    cloneBranch E username repo branch branchPath retries w = (o, w')
    /\ match o with
       | Val true =>
           branchPath ∈ fs w'
           /\ (branchPath ∉ fs w -> tracked_entries branchPath w' <> [])
       | Val false => 1 <= default 3 retries -> branchPath ∉ fs w'
       | Throw e => e = FsError /\ branchPath ∈ fs w'
       | _ => False
       end.
Proof.
  destruct (cloneBranch_result E username repo branch branchPath retries w)
    as (o & w' & l & Hrun & _ & _ & _ & Hout).
  exists o, w'. split; [exact Hrun | exact Hout].
Qed.

End BranchClonerRetries.

Lemma cloneBranch_gives_up_witness :
  fst (cloneBranch Ex2.partial_clones "u" Ex.app "main" "/out/app/main" None
         Ex.blank)
  = Val false
  /\ trace (snd (cloneBranch Ex2.partial_clones "u" Ex.app "main"
                   "/out/app/main" None Ex.blank))
     = [EvClone "https://github.com/u/app.git" "/out/app/main"
          (branch_clone_args "main");
        EvRm "/out/app/main"; EvDelay 500;
        EvClone "https://github.com/u/app.git" "/out/app/main"
          (branch_clone_args "main");
        EvRm "/out/app/main"; EvDelay 1000;
        EvClone "https://github.com/u/app.git" "/out/app/main"
          (branch_clone_args "main");
        EvRm "/out/app/main"].
Proof.
  destruct (cloneBranch_gives_up Ex2.partial_clones "u" Ex.app "main"
              "/out/app/main" None [true; true] true Ex.blank)
    as (Hrun & _ & _ & Htrace).
  - reflexivity.
  - apply (bool_decide_unpack _); vm_compute; exact I.
  - cbn [app clone_failures]. repeat split; reflexivity.
  - rewrite Hrun. split; [reflexivity | exact Htrace].
Defined.

Lemma cloneBranch_recovers_witness :
  cloneBranch Ex2.second_try "u" Ex.app "main" "/out/app/main" None Ex.blank
  = (Val true,
     with_submodules Ex2.second_try "/out/app/main"
       (cloned "https://github.com/u/app.git" "/out/app/main"
          (branch_clone_args "main") [".git"; "README.md"]
          (retried_all "https://github.com/u/app.git" "/out/app/main"
             (branch_clone_args "main") 1 [true] Ex.blank)))
  /\ trace (snd (cloneBranch Ex2.second_try "u" Ex.app "main" "/out/app/main"
                   None Ex.blank))
     = [EvClone "https://github.com/u/app.git" "/out/app/main"
          (branch_clone_args "main");
        EvRm "/out/app/main"; EvDelay 500;
        EvClone "https://github.com/u/app.git" "/out/app/main"
          (branch_clone_args "main");
        EvSubmoduleInit "/out/app/main"].
Proof.
  destruct (cloneBranch_recovers Ex2.second_try "u" Ex.app "main"
              "/out/app/main" None [true] [".git"; "README.md"] "README.md"
              Ex.blank)
    as (Hrun & _ & _).
  - cbn. lia.
  - apply (bool_decide_unpack _); vm_compute; exact I.
  - cbn [clone_failures]. repeat split; reflexivity.
  - reflexivity.
  - apply list_elem_of_In. cbn. auto.
  - discriminate.
  - reflexivity.
  - split; [exact Hrun | vm_compute; reflexivity].
Defined.

(** ** The branch lister: requests and disk *)

Section BranchListerEffects.

Variable E : Env.
Variables username repoName : string.

Lemma fetchBranches_retry_effects (fuel : nat) :
  forall (retryCount : nat) (w : World),
    retryCount < maxRetries ->
    maxRetries <= fuel + retryCount ->
    exists bs l,
      fetchBranches_retry E fuel username repoName retryCount w
      = (Val bs, extend l w)
      /\ branches_requests l <= maxRetries - retryCount
      /\ Forall branches_event l.
Proof.
  induction fuel as [|fuel IH]; intros retryCount w Hlt Hfuel; [lia |].
  rewrite fetchBranches_retry_step by exact Hlt. cbn zeta.
  assert (forall bs : list string,
            exists l,
              (Val bs, log_event (EvGetBranches username repoName) w)
              = (Val bs, extend l w)
              /\ branches_requests l <= maxRetries - retryCount
              /\ Forall branches_event l) as Hone.
  { intros bs. exists [EvGetBranches username repoName].
    split; [reflexivity |]. split; [| repeat constructor].
    unfold branches_requests. cbn [List.filter length]. lia. }
  destruct (branches_api E (now w) username repoName) as [e | data].
  2: { eexists. apply Hone. }
  destruct (bool_decide (status_of e = Some 403)).
  { eexists. apply Hone. }
  destruct (retryCount + 1 =? maxRetries) eqn:Hlast.
  { eexists. apply Hone. }
  apply Nat.eqb_neq in Hlast.
  destruct (IH (retryCount + 1)
              (log_event (EvDelay (1000 * (retryCount + 1)))
                 (log_event (EvGetBranches username repoName) w)))
    as (bs & l & Hrun & Hn & Hl); [lia | lia |].
  exists bs,
    ([EvGetBranches username repoName; EvDelay (1000 * (retryCount + 1))]
       ++ l)%list.
  split; [| split].
  - rewrite Hrun. f_equal. unfold extend, log_event. cbn [fs trace].
    now rewrite <- !app_assoc.
  - unfold branches_requests in *. cbn [app List.filter length]. lia.
  - apply Forall_app. split; [repeat constructor | exact Hl].
Qed.

(** [fetchBranches] sends at most three requests and never touches the
    disk: all it adds to the history are its requests and its delays. *)
Theorem fetchBranches_effects (w : World) :
  exists bs l,
    fetchBranches E username repoName w = (Val bs, extend l w)
    /\ branches_requests l <= 3
    /\ Forall branches_event l.
Proof.
  destruct (fetchBranches_retry_effects maxRetries 0 w)
    as (bs & l & Hrun & Hn & Hl); [unfold maxRetries; lia.. |].
  exists bs, l. split; [exact Hrun |]. split; [| exact Hl].
  unfold maxRetries in Hn. lia.
Qed.

End BranchListerEffects.

(** ** The repository cloner: edge cases and the directory it keeps *)

Section RepoClonerEdges.

Variable E : Env.
Variable username : string.
Variable repo : Repository.
Variable outputDir : string.

Local Abbreviation repoPath := (path_join outputDir (name repo)).
Local Abbreviation branchPath branch :=
  (path_join repoPath (branchDirName branch)).

Lemma ensure_dir_ok (p : string) (w w1 : World) :
  ensure_dir E p w = (Val tt, w1) ->
  p ∈ fs w1 /\ (forall q, q ∈ fs w -> q ∈ fs w1).
Proof.
  unfold ensure_dir, bind, existsSync, mkdirSync, ret.
  destruct (bool_decide (p ∈ fs w)) eqn:Hex; cbn [negb].
  - intros [= <-]. apply bool_decide_eq_true_1 in Hex. auto.
  - destruct (mkdir_ok E (now w) p); [| discriminate].
    intros [= <-]. cbn. split; [apply in_with_dir |].
    intros q Hq. now apply in_with_dir_old.
Qed.

(** The branch loop keeps the repository directory. *)
Lemma cloneRepo_branches_keep_repoPath (branches : list string) :
  forall (s f : nat) (w : World),
    repoPath ∈ fs w ->
    repoPath
    ∈ fs (snd (cloneRepo_branches E username repo repoPath branches s f w)).
Proof.
  induction branches as [|branch rest IH]; intros s f w Hin; [exact Hin |].
  cbn [cloneRepo_branches]. unfold bind at 1.
  destruct (cloneBranch_result E username repo branch (branchPath branch)
              None w) as (o & w1 & l & Hrun & _ & _ & Hkept & Hout).
  rewrite Hrun.
  assert (repoPath ∈ fs w1) as Hin1
    by (apply Hkept; auto using path_join_neq, not_under_child).
  destruct o as [[|] | ? | ? |]; try contradiction; try exact Hin1;
    cbn zeta; unfold bind, delay; apply IH; exact Hin1.
Qed.

(** A repository for which the branch lister returns nothing, be it for
    an empty answer, a 403 or three errors, is reported as failed with both
    counts at 0; its directory, made at the start, stays on disk, and the
    orchestrator counts the repository as failed. *)
Theorem cloneRepo_no_branches (t : Totals) (w w1 w2 : World) :
  ensure_dir E repoPath w = (Val tt, w1) ->
  fetchBranches E username (name repo) w1 = (Val [], w2) ->
  cloneRepo E username repo outputDir w = (Val (mkResult false 0 0), w2)
  /\ repoPath ∈ fs w2
  /\ main_step E true username outputDir t repo w
     = (Val (mkTotals (totalSuccessfulRepos t) (totalFailedRepos t + 1)
               (totalSuccessfulBranches t) (totalFailedBranches t)),
        log_event (EvDelay 1000) w2).
Proof.
  intros Hdir Hfetch.
  assert (cloneRepo E username repo outputDir w
          = (Val (mkResult false 0 0), w2)) as Hrun.
  { unfold cloneRepo, try_catch, cloneRepo_try, bind.
    rewrite Hdir, Hfetch. reflexivity. }
  split; [exact Hrun |]. split.
  - destruct (fetchBranches_returns E username (name repo) w1)
      as (bs & w' & Hrun' & Hfs).
    rewrite Hfetch in Hrun'. injection Hrun' as _ <-.
    rewrite Hfs. exact (proj1 (ensure_dir_ok _ _ _ Hdir)).
  - exact (main_step_branch_mode E username repo outputDir t _ w w2 Hrun).
Qed.

(** When the repository directory cannot be made, [cloneRepo] sends no
    request and clones nothing, and still reports one failed branch. *)
Theorem cloneRepo_mkdir_failure (w : World) :
  repoPath ∉ fs w ->
  mkdir_ok E (now w) repoPath = false ->
  cloneRepo E username repo outputDir w
  = (Val (mkResult false 0 1), log_event (EvMkdir repoPath) w).
Proof.
  intros Hnin Hmk.
  unfold cloneRepo, try_catch, cloneRepo_try, ensure_dir, bind, existsSync,
    mkdirSync.
  rewrite bool_decide_eq_false_2 by exact Hnin. cbn [negb]. now rewrite Hmk.
Qed.

(** [cloneRepo] never throws, and on every path, the [catch] included, its
    success flag says whether at least one branch was cloned. *)
Theorem cloneRepo_outcome (w : World) :
  exists r w',
    cloneRepo E username repo outputDir w = (Val r, w')
    /\ success r = (0 <? successfulBranches r).
Proof. apply cloneRepo_returns_flag. Qed.

(** As soon as one branch is cloned and the branch loop completes, the
    repository is a success: [cloneRepo] returns the counts of the loop in
    the world the loop left, and the repository directory is on disk,
    whatever the clean-up of the branches that failed removed. *)
Theorem cloneRepo_keeps_directory (branches : list string)
    (counts : nat * nat) (w w1 w2 w3 : World) :
  ensure_dir E repoPath w = (Val tt, w1) ->
  fetchBranches E username (name repo) w1 = (Val branches, w2) ->
  cloneRepo_branches E username repo repoPath branches 0 0 w2
  = (Val counts, w3) ->
  0 < fst counts ->
  cloneRepo E username repo outputDir w
  = (Val (mkResult true (fst counts) (snd counts)), w3)
  /\ repoPath ∈ fs w3.
Proof.
  intros Hdir Hfetch Hloop Hok.
  assert (branches <> []) as Hne.
  { intros ->. cbn in Hloop. injection Hloop as <- _. cbn in Hok. lia. }
  split.
  - rewrite (cloneRepo_run E username repo outputDir branches counts
               w w1 w2 w3 Hdir Hfetch Hne Hloop).
    assert ((fst counts =? 0) = false) as -> by (apply Nat.eqb_neq; lia).
    reflexivity.
  - pose proof (cloneRepo_branches_keep_repoPath branches 0 0 w2) as Hkeep.
    rewrite Hloop in Hkeep. apply Hkeep.
    destruct (fetchBranches_returns E username (name repo) w1)
      as (bs & w' & Hrun' & Hfs).
    rewrite Hfetch in Hrun'. injection Hrun' as _ <-.
    rewrite Hfs. exact (proj1 (ensure_dir_ok _ _ _ Hdir)).
Qed.

(** Two branches with the same directory name: once the first is cloned,
    the second finds the directory, is counted as a success and is never
    cloned; the loop only adds its two delays to the world the first clone
    left. *)
Theorem cloneRepo_branches_same_directory (b1 b2 : string) (s f : nat)
    (w w1 : World) :
  branchDirName b1 = branchDirName b2 ->
  cloneBranch E username repo b1 (branchPath b1) None w = (Val true, w1) ->
  cloneRepo_branches E username repo repoPath [b1; b2] s f w
  = (Val (s + 1 + 1, f),
     log_event (EvDelay 500) (log_event (EvDelay 500) w1)).
Proof.
  intros Hsame Hfirst.
  destruct (cloneBranch_result E username repo b1 (branchPath b1) None w)
    as (o & w' & l & Hrun & _ & _ & _ & Hout).
  rewrite Hfirst in Hrun. injection Hrun as <- <-.
  destruct Hout as [Hin _].
  cbn [cloneRepo_branches]. unfold bind at 1. rewrite Hfirst. cbn zeta.
  unfold bind at 1, delay at 1. unfold bind at 1.
  rewrite <- Hsame, cloneBranch_unfold.
  rewrite cloneBranch_attempts_exists by (cbn; auto; lia).
  reflexivity.
Qed.

End RepoClonerEdges.

(** ** The root cloner: no clean-up *)

Section RootClonerEdges.

Variable E : Env.
Variable username : string.
Variable repo : Repository.
Variable outputDir : string.

Local Abbreviation repoPath := (path_join outputDir (name repo)).
Local Abbreviation url := (cloneUrl E username repo).
Local Abbreviation ev := (EvClone url repoPath ["--depth"; "1"]).

Lemma cloneRootRepo_run (w : World) :
  exists r w' l,
    cloneRootRepo E username repo outputDir w = (Val r, w')
    /\ trace w' = (trace w ++ l)%list
    /\ clone_events l <= 1
    /\ (forall q, q ∈ fs w -> q ∈ fs w')
    /\ (root_success r = true -> repoPath ∈ fs w').
Proof.
  unfold cloneRootRepo, ensure_dir, try_catch, bind, existsSync, mkdirSync,
    git_clone_into, ret.
  destruct (bool_decide (repoPath ∈ fs w)) eqn:Hex; cbn [negb].
  - destruct (git_clone E (now w) url repoPath ["--depth"; "1"])
      as [entries | [|]];
      do 2 eexists; exists [ev];
      (split; [reflexivity |]); (split; [reflexivity |]);
      (split; [cbn; lia |]); cbn;
      (split; [| try discriminate; intros _; apply in_checkout]);
      intros q Hq; auto using in_checkout_old, in_with_dir_old.
  - destruct (mkdir_ok E (now w) repoPath).
    + destruct (git_clone E _ url repoPath ["--depth"; "1"])
        as [entries | [|]];
        do 2 eexists; exists [EvMkdir repoPath; ev];
        (split; [reflexivity |]);
        (split; [cbn; now rewrite <- app_assoc |]);
        (split; [cbn; lia |]); cbn;
        (split; [| try discriminate; intros _; apply in_checkout]);
        intros q Hq; auto using in_checkout_old, in_with_dir_old.
    + do 2 eexists. exists [EvMkdir repoPath].
      split; [reflexivity |]. split; [reflexivity |].
      split; [cbn; lia |]. cbn. split; [auto | discriminate].
Qed.

(** [cloneRootRepo] never throws, runs at most one clone command and never
    removes anything from the disk, not even after a failed clone; when it
    reports success the target is on disk. *)
Theorem cloneRootRepo_outcome (w : World) :
  exists r w' l,
    cloneRootRepo E username repo outputDir w = (Val r, w')
    /\ trace w' = (trace w ++ l)%list
    /\ clone_events l <= 1
    /\ (forall q, q ∈ fs w -> q ∈ fs w')
    /\ (root_success r = true -> repoPath ∈ fs w').
Proof. apply cloneRootRepo_run. Qed.

(** On a fresh target, [cloneRootRepo] makes the directory and then clones
    once; the result is the success of that clone, and the directory is on
    disk afterwards in either case: a failed clone is not cleaned up. *)
Theorem cloneRootRepo_fresh_target (w : World) :
  repoPath ∉ fs w ->
  mkdir_ok E (now w) repoPath = true ->
  exists w',
    cloneRootRepo E username repo outputDir w
    = (Val (mkRootResult
              (match git_clone E (now w + 1) url repoPath ["--depth"; "1"] with
               | Cloned _ => true
               | CloneFailed _ => false
               end)), w')
    /\ trace w' = (trace w ++ [EvMkdir repoPath; ev])%list
    /\ repoPath ∈ fs w'.
Proof.
  intros Hnin Hmk.
  unfold cloneRootRepo, ensure_dir, try_catch, bind, existsSync, mkdirSync,
    git_clone_into, ret.
  rewrite bool_decide_eq_false_2 by exact Hnin. cbn [negb]. rewrite Hmk.
  replace (now (set_fs (with_dir repoPath (fs w))
                  (log_event (EvMkdir repoPath) w)))
    with (now w + 1) by (unfold now; cbn; rewrite length_app; reflexivity).
  destruct (git_clone E (now w + 1) url repoPath ["--depth"; "1"])
    as [entries | [|]];
    eexists; (split; [reflexivity |]);
    (split; [cbn; now rewrite <- app_assoc |]); cbn;
    auto using in_checkout, in_with_dir, in_with_dir_old.
Qed.

(** When the target directory cannot be made, no clone is attempted. *)
Theorem cloneRootRepo_mkdir_failure (w : World) :
  repoPath ∉ fs w ->
  mkdir_ok E (now w) repoPath = false ->
  cloneRootRepo E username repo outputDir w
  = (Val (mkRootResult false), log_event (EvMkdir repoPath) w).
Proof.
  intros Hnin Hmk.
  unfold cloneRootRepo, ensure_dir, try_catch, bind, existsSync, mkdirSync.
  rewrite bool_decide_eq_false_2 by exact Hnin. cbn [negb]. now rewrite Hmk.
Qed.

End RootClonerEdges.

(** ** The orchestrator *)

Section Orchestrator.

Variable E : Env.

Local Abbreviation outputDir username :=
  (path_join (path_join (dirname E) "repositories") username).

(** One iteration in root mode, from the result of [cloneRootRepo]. *)
Lemma main_step_root_mode (username out : string) (t : Totals)
    (repo : Repository) (r : RootResult) (w w1 : World) :
  cloneRootRepo E username repo out w = (Val r, w1) ->
  main_step E false username out t repo w
  = (Val (if root_success r
          then mkTotals (totalSuccessfulRepos t + 1) (totalFailedRepos t)
                 (totalSuccessfulBranches t) (totalFailedBranches t)
          else mkTotals (totalSuccessfulRepos t) (totalFailedRepos t + 1)
                 (totalSuccessfulBranches t) (totalFailedBranches t)),
     log_event (EvDelay 1000) w1).
Proof.
  intros Hrun. unfold main_step, bind at 1. unfold bind at 1. rewrite Hrun.
  destruct (root_success r); reflexivity.
Qed.

(** An iteration always completes and counts its repository once. *)
Lemma main_step_counts (mode : bool) (username out : string) (t : Totals)
    (repo : Repository) (w : World) :
  exists t' w',
    main_step E mode username out t repo w = (Val t', w')
    /\ totalSuccessfulRepos t' + totalFailedRepos t'
       = totalSuccessfulRepos t + totalFailedRepos t + 1
    /\ totalSuccessfulBranches t <= totalSuccessfulBranches t'
    /\ totalFailedBranches t <= totalFailedBranches t'
    /\ (mode = false ->
        totalSuccessfulBranches t' = totalSuccessfulBranches t
        /\ totalFailedBranches t' = totalFailedBranches t).
Proof.
  destruct mode.
  - destruct (cloneRepo_returns E username repo out w) as (r & w1 & Hrun).
    rewrite (main_step_branch_mode E username repo out t r w w1 Hrun).
    do 2 eexists. split; [reflexivity |].
    destruct (success r); cbn; repeat split; try lia; discriminate.
  - destruct (cloneRootRepo_run E username repo out w)
      as (r & w1 & l & Hrun & _).
    rewrite (main_step_root_mode username out t repo r w w1 Hrun).
    do 2 eexists. split; [reflexivity |].
    destruct (root_success r); cbn; repeat split; lia.
Qed.

Lemma main_loop_run (mode : bool) (username out : string)
    (repos : list Repository) :
  forall (t : Totals) (w : World),
  exists t' w',
    main_loop E mode username out repos t w = (Val t', w')
    /\ totalSuccessfulRepos t' + totalFailedRepos t'
       = totalSuccessfulRepos t + totalFailedRepos t + length repos
    /\ totalSuccessfulBranches t <= totalSuccessfulBranches t'
    /\ totalFailedBranches t <= totalFailedBranches t'
    /\ (mode = false ->
        totalSuccessfulBranches t' = totalSuccessfulBranches t
        /\ totalFailedBranches t' = totalFailedBranches t).
Proof.
  induction repos as [|repo rest IH]; intros t w.
  - exists t, w. cbn. unfold ret. repeat split; lia.
  - destruct (main_step_counts mode username out t repo w)
      as (t1 & w1 & Hstep & Hsum1 & Hs1 & Hf1 & Hroot1).
    destruct (IH t1 w1) as (t' & w' & Hloop & Hsum & Hs & Hf & Hroot).
    exists t', w'. cbn [main_loop length]. unfold bind.
    rewrite Hstep, Hloop. split; [reflexivity |].
    split; [lia |]. split; [lia |]. split; [lia |].
    intros Hmode. destruct (Hroot1 Hmode), (Hroot Hmode). split; congruence.
Qed.

(** The loop over the repositories always completes; every repository is
    counted exactly once, as a success or as a failure, the branch totals
    never decrease, and in root mode they do not move. *)
Theorem main_loop_counts (mode : bool) (username out : string)
    (repos : list Repository) (t : Totals) (w : World) :
  exists t' w',
    main_loop E mode username out repos t w = (Val t', w')
    /\ totalSuccessfulRepos t' + totalFailedRepos t'
       = totalSuccessfulRepos t + totalFailedRepos t + length repos
    /\ totalSuccessfulBranches t <= totalSuccessfulBranches t'
    /\ totalFailedBranches t <= totalFailedBranches t'
    /\ (mode = false ->
        totalSuccessfulBranches t' = totalSuccessfulBranches t
        /\ totalFailedBranches t' = totalFailedBranches t).
Proof. apply main_loop_run. Qed.

(** Without a username on the command line the script exits with code 1
    before it does anything else. *)
Theorem main_without_username (fuel : nat) (argv : list string) (w : World) :
  length argv <= 2 ->
  main E fuel argv w = (Exit 1, w).
Proof.
  intros Hlen. unfold main, try_catch, bind.
  assert (drop 2 argv = []) as -> by (apply drop_ge; exact Hlen).
  reflexivity.
Qed.

(** When the output directory cannot be made, the script exits with code 1
    without a single request. *)
Theorem main_mkdir_failure (fuel : nat) (node script username : string)
    (options : list string) (w : World) :
  outputDir username ∉ fs w ->
  mkdir_ok E (now w) (outputDir username) = false ->
  main E fuel (node :: script :: username :: options) w
  = (Exit 1, log_event (EvMkdir (outputDir username)) w).
Proof.
  intros Hnin Hmk.
  unfold main, try_catch, bind at 1. cbn [drop length Nat.eqb List.nth].
  unfold ret at 1. unfold bind at 1, ensure_dir, bind at 1, existsSync.
  rewrite bool_decide_eq_false_2 by exact Hnin. cbn [negb].
  unfold mkdirSync. rewrite Hmk. reflexivity.
Qed.

(** A 403 on the first listing request ends the whole run with exit code 1
    right after that request: nothing is cloned. *)
Theorem main_rate_limited (fuel : nat) (node script username : string)
    (options : list string) (w w1 : World) :
  ensure_dir E (outputDir username) w = (Val tt, w1) ->
  rate_limited (listing_api E (now w1) username 1) ->
  main E (S fuel) (node :: script :: username :: options) w
  = (Exit 1, log_event (EvGetRepos username 1) w1).
Proof.
  intros Hdir Hlimit.
  unfold main, try_catch, bind at 1. cbn [drop length Nat.eqb List.nth].
  unfold ret at 1. unfold bind at 1. rewrite Hdir.
  unfold bind at 1, fetchAllRepos. cbn [fetchAllRepos_pages]. unfold bind at 1.
  change (fetchAllRepos_retry E maxRetries) with (fetchAllRepos_retry E 3).
  rewrite fetchAllRepos_retry_step by (unfold maxRetries; lia). cbn zeta.
  destruct (listing_api E (now w1) username 1) as [e |]; [| contradiction].
  cbn in Hlimit. rewrite bool_decide_eq_true_2 by exact Hlimit. reflexivity.
Qed.

(** A user without repositories: the run ends normally after one listing
    request, with no summary and nothing cloned. *)
Theorem main_no_repositories (fuel : nat) (node script username : string)
    (options : list string) (w w1 : World) :
  ensure_dir E (outputDir username) w = (Val tt, w1) ->
  listing_api E (now w1) username 1 = inr [] ->
  main E (S fuel) (node :: script :: username :: options) w
  = (Val None, log_event (EvGetRepos username 1) w1).
Proof.
  intros Hdir Hempty.
  unfold main, try_catch, bind at 1. cbn [drop length Nat.eqb List.nth].
  unfold ret at 1. unfold bind at 1. rewrite Hdir.
  unfold bind at 1, fetchAllRepos. cbn [fetchAllRepos_pages]. unfold bind at 1.
  change (fetchAllRepos_retry E maxRetries) with (fetchAllRepos_retry E 3).
  rewrite fetchAllRepos_retry_step by (unfold maxRetries; lia). cbn zeta.
  rewrite Hempty. reflexivity.
Qed.

(** A run that lists at least one repository ends with a summary in which
    the successful and the failed repositories add up to the number
    listed; without [--fetch-branches] both branch totals are 0. *)
Theorem main_summary (fuel : nat) (node script username : string)
    (options : list string) (repos : list Repository) (w w1 w2 : World) :
  ensure_dir E (outputDir username) w = (Val tt, w1) ->
  fetchAllRepos E fuel username w1 = (Val repos, w2) ->
  repos <> [] ->
  exists t w',
    main E fuel (node :: script :: username :: options) w = (Val (Some t), w')
    /\ totalSuccessfulRepos t + totalFailedRepos t = length repos
    /\ ("--fetch-branches" ∉ username :: options ->
        totalSuccessfulBranches t = 0 /\ totalFailedBranches t = 0).
Proof.
  intros Hdir Hlist Hne.
  destruct (main_loop_run
              (bool_decide ("--fetch-branches" ∈ username :: options))
              username (outputDir username) repos (mkTotals 0 0 0 0) w2)
    as (t & w' & Hloop & Hsum & _ & _ & Hroot).
  exists t, w'. split; [| split].
  - unfold main, try_catch, bind at 1. cbn [drop length Nat.eqb List.nth].
    unfold ret at 1. unfold bind at 1. rewrite Hdir.
    unfold bind at 1. rewrite Hlist.
    destruct repos as [|r rs]; [congruence |]. cbn [length Nat.eqb].
    unfold bind. rewrite Hloop. reflexivity.
  - cbn in Hsum. lia.
  - intros Hno. apply Hroot. now apply bool_decide_eq_false_2.
Qed.

(** The script never ends on an uncaught error: whatever the remote and
    the disk do, the run returns, or exits with code 1, or keeps asking for
    pages. *)
Theorem main_exit_status (fuel : nat) (argv : list string) (w : World) :
  exits_only_with_1 (fst (main E fuel argv w)).
Proof.
  unfold main, try_catch, bind at 1.
  destruct (length (drop 2 argv) =? 0); [exact eq_refl |].
  unfold ret at 1. unfold bind at 1.
  set (username := List.nth 0 (drop 2 argv) "").
  destruct (ensure_dir_cases E (outputDir username) w)
    as [[w1 Hdir] | (e & w1 & Hdir)]; rewrite Hdir; [| exact eq_refl].
  unfold bind at 1.
  destruct (fetchAllRepos_pages_effects E username fuel [] 1 w1)
    as (l & _ & _ & Hout).
  fold (fetchAllRepos E fuel username) in Hout.
  destruct (fetchAllRepos E fuel username w1) as [[repos | e | c |] w2];
    cbn [fst] in Hout; cbn in Hout; try contradiction; try exact Hout;
    try exact I.
  destruct (length repos =? 0); [exact I |].
  destruct (main_loop_run
              (bool_decide ("--fetch-branches" ∈ drop 2 argv))
              username (outputDir username) repos (mkTotals 0 0 0 0) w2)
    as (t & w' & Hloop & _).
  unfold bind. rewrite Hloop. exact I.
Qed.

End Orchestrator.

(** ** Runs of the further properties on concrete remotes *)

Lemma cloneRepo_no_branches_witness :
  exists w2,
    cloneRepo Ex2.no_branches "u" Ex.app "/out" Ex.blank
    = (Val (mkResult false 0 0), w2)
    /\ "/out/app" ∈ fs w2.
Proof.
  exists (snd (fetchBranches Ex2.no_branches "u" "app"
                 (snd (ensure_dir Ex2.no_branches "/out/app" Ex.blank)))).
  destruct (cloneRepo_no_branches Ex2.no_branches "u" Ex.app "/out"
              (mkTotals 0 0 0 0) Ex.blank
              (snd (ensure_dir Ex2.no_branches "/out/app" Ex.blank))
              (snd (fetchBranches Ex2.no_branches "u" "app"
                      (snd (ensure_dir Ex2.no_branches "/out/app" Ex.blank)))))
    as (Hrun & Hdir & _).
  - vm_compute. reflexivity.
  - vm_compute. reflexivity.
  - split; [exact Hrun | exact Hdir].
Defined.

Lemma cloneRepo_mkdir_failure_witness :
  cloneRepo Ex2.read_only "u" Ex.app "/out" Ex.blank
  = (Val (mkResult false 0 1), log_event (EvMkdir "/out/app") Ex.blank).
Proof.
  apply (cloneRepo_mkdir_failure Ex2.read_only "u" Ex.app "/out" Ex.blank).
  - apply (bool_decide_unpack _); vm_compute; exact I.
  - reflexivity.
Defined.

Lemma cloneRepo_keeps_directory_witness :
  fst (cloneRepo Ex2.one_good_branch "u" Ex.app "/out" Ex.blank)
  = Val (mkResult true 1 1)
  /\ "/out/app"
     ∈ fs (snd (cloneRepo Ex2.one_good_branch "u" Ex.app "/out" Ex.blank)).
Proof.
  destruct (cloneRepo_keeps_directory Ex2.one_good_branch "u" Ex.app "/out"
              ["main"; "dev"] (1, 1) Ex.blank
              (snd (ensure_dir Ex2.one_good_branch "/out/app" Ex.blank))
              (snd (fetchBranches Ex2.one_good_branch "u" "app"
                      (snd (ensure_dir Ex2.one_good_branch "/out/app"
                              Ex.blank))))
              (snd (cloneRepo_branches Ex2.one_good_branch "u" Ex.app
                      "/out/app" ["main"; "dev"] 0 0
                      (snd (fetchBranches Ex2.one_good_branch "u" "app"
                              (snd (ensure_dir Ex2.one_good_branch "/out/app"
                                      Ex.blank)))))))
    as (Hrun & Hdir).
  - vm_compute. reflexivity.
  - vm_compute. reflexivity.
  - vm_compute. reflexivity.
  - cbn. lia.
  - rewrite Hrun. split; [reflexivity | exact Hdir].
Defined.

Lemma cloneRepo_branches_same_directory_witness :
  cloneRepo_branches Ex2.no_submodules "u" Ex.app "/out/app"
    ["fix/login"; "fix-login"] 0 0 Ex.blank
  = (Val (2, 0),
     log_event (EvDelay 500)
       (log_event (EvDelay 500)
          (snd (cloneBranch Ex2.no_submodules "u" Ex.app "fix/login"
                  "/out/app/fix-login" None Ex.blank)))).
Proof.
  apply (cloneRepo_branches_same_directory Ex2.no_submodules "u" Ex.app
           "/out" "fix/login" "fix-login" 0 0 Ex.blank
           (snd (cloneBranch Ex2.no_submodules "u" Ex.app "fix/login"
                   "/out/app/fix-login" None Ex.blank))).
  - reflexivity.
  - vm_compute. reflexivity.
Defined.

Lemma cloneRootRepo_fresh_target_witness :
  exists w',
    cloneRootRepo Ex2.partial_clones "u" Ex.app "/out" Ex.blank
    = (Val (mkRootResult false), w')
    /\ "/out/app" ∈ fs w'.
Proof.
  destruct (cloneRootRepo_fresh_target Ex2.partial_clones "u" Ex.app "/out"
              Ex.blank) as (w' & Hrun & _ & Hdir).
  - apply (bool_decide_unpack _); vm_compute; exact I.
  - reflexivity.
  - exists w'. split; [exact Hrun | exact Hdir].
Defined.

Lemma cloneRootRepo_mkdir_failure_witness :
  cloneRootRepo Ex2.read_only "u" Ex.app "/out" Ex.blank
  = (Val (mkRootResult false), log_event (EvMkdir "/out/app") Ex.blank).
Proof.
  apply (cloneRootRepo_mkdir_failure Ex2.read_only "u" Ex.app "/out" Ex.blank).
  - apply (bool_decide_unpack _); vm_compute; exact I.
  - reflexivity.
Defined.

Lemma main_without_username_witness :
  main Ex.healthy 5 ["node"; "index.js"] Ex.blank = (Exit 1, Ex.blank).
Proof.
  apply (main_without_username Ex.healthy 5 ["node"; "index.js"] Ex.blank).
  cbn. lia.
Defined.

Lemma main_mkdir_failure_witness :
  main Ex2.read_only 5 ["node"; "index.js"; "u"] Ex.blank
  = (Exit 1, log_event (EvMkdir "/srv/repositories/u") Ex.blank).
Proof.
  apply (main_mkdir_failure Ex2.read_only 5 "node" "index.js" "u" [] Ex.blank).
  - apply (bool_decide_unpack _); vm_compute; exact I.
  - reflexivity.
Defined.

Lemma main_rate_limited_witness :
  fst (main Ex2.rate_limited_listing 5
         ["node"; "index.js"; "u"; "--fetch-branches"] Ex.blank)
  = Exit 1.
Proof.
  rewrite (main_rate_limited Ex2.rate_limited_listing 4 "node" "index.js" "u"
             ["--fetch-branches"] Ex.blank
             (snd (ensure_dir Ex2.rate_limited_listing "/srv/repositories/u"
                     Ex.blank))).
  - reflexivity.
  - vm_compute. reflexivity.
  - reflexivity.
Defined.

Lemma main_no_repositories_witness :
  fst (main Ex2.no_repositories 5 ["node"; "index.js"; "u"] Ex.blank)
  = Val None.
Proof.
  rewrite (main_no_repositories Ex2.no_repositories 4 "node" "index.js" "u"
             [] Ex.blank
             (snd (ensure_dir Ex2.no_repositories "/srv/repositories/u"
                     Ex.blank))).
  - reflexivity.
  - vm_compute. reflexivity.
  - reflexivity.
Defined.

Lemma main_summary_witness :
  exists t w',
    main Ex.healthy 2 ["node"; "index.js"; "u"] Ex.blank = (Val (Some t), w')
    /\ totalSuccessfulRepos t + totalFailedRepos t = 2
    /\ totalSuccessfulBranches t = 0.
Proof.
  destruct (main_summary Ex.healthy 2 "node" "index.js" "u" []
              [mkRepo "lib" true; mkRepo "app" false] Ex.blank
              (snd (ensure_dir Ex.healthy "/srv/repositories/u" Ex.blank))
              (snd (fetchAllRepos Ex.healthy 2 "u"
                      (snd (ensure_dir Ex.healthy "/srv/repositories/u"
                              Ex.blank)))))
    as (t & w' & Hrun & Hsum & Hroot).
  - vm_compute. reflexivity.
  - vm_compute. reflexivity.
  - discriminate.
  - exists t, w'. split; [exact Hrun |]. split; [exact Hsum |].
    apply Hroot. apply (bool_decide_unpack _); vm_compute; exact I.
Defined.

Lemma cloneBranch_twice_witness :
  cloneBranch Ex.healthy "u" Ex.app "main" "/out/app/main" None
    (snd (cloneBranch Ex.healthy "u" Ex.app "main" "/out/app/main" None
            Ex.blank))
  = (Val true,
     snd (cloneBranch Ex.healthy "u" Ex.app "main" "/out/app/main" None
            Ex.blank)).
Proof.
  apply (cloneBranch_twice Ex.healthy "u" Ex.app "main" "/out/app/main"
           Ex.blank).
  vm_compute. reflexivity.
Defined.
